(** * wsdl/types.go: the WSDL document model and its decoding

    The Go package declares the document model as structs whose [xml:"..."]
    tags drive [encoding/xml], and one hand-written decoding rule,
    [RestrictionAttr.UnmarshalXML].  This development embeds

    - the structs as records, with Go's zero values;
    - [RestrictionAttr.UnmarshalXML] as a state-passing function over the
      receiver and the decoder's token stream;
    - the tag-driven decoding that [encoding/xml] performs for every other
      struct, as one decoder per struct over the element tree that the
      token stream spells.

    Strings are byte strings ([string] of [ascii]), Go's [int] is [Z]. *)

From Stdlib Require Import String Ascii List ZArith Bool Lia.
Import ListNotations.
Local Open Scope string_scope.
Local Open Scope list_scope.
Set Warnings "-register-all".

(** ** Errors and results *)

(** The error values the decoding can produce.  [Errorf] is an error built
    by [fmt.Errorf] (identified by its message), [SyntaxError] and [EOF] are
    what the token reader returns on malformed or exhausted input,
    [UnmarshalError] is [xml.UnmarshalError], [NumError] is the error of
    [strconv.ParseInt] and [strconv.ParseBool]. *)
Inductive error : Type :=
| Errorf (msg : string)
| SyntaxError (msg : string)
| EOF
| UnmarshalError (msg : string)
| NumError (func input : string).

Inductive result (A : Type) : Type :=
| Ok (a : A)
| Err (e : error).
Arguments Ok {A} a.
Arguments Err {A} e.

Definition bind {A B : Type} (r : result A) (k : A -> result B) : result B :=
  match r with
  | Ok a => k a
  | Err e => Err e
  end.

Notation "x <- c ;; k" := (bind c (fun x => k))
  (at level 61, c at next level, right associativity).

Definition is_err {A : Type} (r : result A) : Prop :=
  exists e, r = Err e.

(** A loop [for _, x := range l { v, err = f(v, x); if err != nil { return err } }]. *)
Definition foldM {A B : Type} (f : A -> B -> result A) : list B -> A -> result A :=
  fix go (l : list B) (a : A) : result A :=
    match l with
    | [] => Ok a
    | x :: l' =>
        match f a x with
        | Ok a' => go l' a'
        | Err e => Err e
        end
    end.

(** ** encoding/xml: names, attributes, tokens *)

(** [xml.Name]. *)
Record Name : Type := mkName { Space : string; Local : string }.

(** [xml.Attr]. *)
Record Attr : Type := mkAttr { Attr_Name : Name; Attr_Value : string }.

(** [xml.StartElement]. *)
Record StartElement : Type :=
  mkStart { Start_Name : Name; Start_Attr : list Attr }.

(** [xml.Token]: a start element, an end element, character data, or one of
    the tokens no decoder here looks into (comment, processing instruction,
    directive). *)
Inductive Token : Type :=
| TStart (s : StartElement)
| TEnd (n : Name)
| TCharData (data : string)
| TOther.

(** The state of an [*xml.Decoder]: what the successive calls of [d.Token()]
    will return.  Once the list is used up, [d.Token()] returns [io.EOF]. *)
Definition Decoder : Type := list (result Token).

(** [d.Skip()]: read tokens until the end element that closes the element
    most recently started, skipping nested elements.
<<
    var depth int64
    for {
        tok, err := d.Token()
        if err != nil { return err }
        switch tok.(type) {
        case StartElement: depth++
        case EndElement:
            if depth == 0 { return nil }
            depth--
        }
    }
>> *)
Fixpoint Skip_from (depth : nat) (d : Decoder) : option error * Decoder :=
  match d with
  | [] => (Some EOF, [])
  | Err e :: d' => (Some e, d')
  | Ok (TStart _) :: d' => Skip_from (S depth) d'
  | Ok (TEnd _) :: d' =>
      match depth with
      | O => (None, d')
      | S k => Skip_from k d'
      end
  | Ok _ :: d' => Skip_from depth d'
  end.

Definition Skip (d : Decoder) : option error * Decoder := Skip_from 0 d.

(** ** strings.Split *)

(** [strings.HasPrefix s sep]. *)
Fixpoint HasPrefix (s sep : string) : bool :=
  match sep, s with
  | EmptyString, _ => true
  | String _ _, EmptyString => false
  | String a sep', String b s' => Ascii.eqb a b && HasPrefix s' sep'
  end.

(** [strings.Split s sep] for a non-empty [sep]: the pieces of [s] between
    the successive leftmost occurrences of [sep].  [cur] is the piece being
    read, [skip] the number of bytes still to drop of the separator found
    last. *)
Fixpoint Split_from (sep : string) (s : string) (cur : string) (skip : nat)
  : list string :=
  match s with
  | EmptyString => [cur]
  | String c s' =>
      match skip with
      | S k => Split_from sep s' cur k
      | O =>
          if HasPrefix s sep
          then cur :: Split_from sep s' EmptyString (String.length sep - 1)
          else Split_from sep s' (cur ++ String c EmptyString) 0
      end
  end.

Definition Split (s sep : string) : list string := Split_from sep s EmptyString 0.

(** ** RestrictionAttr *)

(** <<
    type RestrictionAttr struct {
        XMLName xml.Name `xml:"attribute"`
        Ref     string   `xml:"ref,attr"`
        Key     string
        Value   string
    }
>> *)
Record RestrictionAttr : Type := mkRestrictionAttr {
  RestrictionAttr_XMLName : Name;
  RestrictionAttr_Ref : string;
  RestrictionAttr_Key : string;
  RestrictionAttr_Value : string
}.

Definition Name_zero : Name := mkName "" "".

(** [RestrictionAttr{}]. *)
Definition RestrictionAttr_zero : RestrictionAttr :=
  mkRestrictionAttr Name_zero "" "" "".

(** [fmt.Errorf("No ref cound")], the error of line 94; the specification
    calls it MissingRequiredAttribute. *)
Definition errNoRef : error := Errorf "No ref cound".

(** The first loop of [UnmarshalXML]:
<<
    for _, attr := range start.Attr {
        if attr.Name.Local == "ref" {
            a.Ref = attr.Value
            split := strings.Split(attr.Value, ":")
            a.Key = split[len(split)-1]
            break
        }
    }
>>
    [nth] with default [""] stands for the indexing; [Split] never returns
    an empty slice (lemma [Split_nonempty]), so the default is never used. *)
Fixpoint findRef (attrs : list Attr) (a : RestrictionAttr) : RestrictionAttr :=
  match attrs with
  | [] => a
  | attr :: rest =>
      if String.eqb (Local (Attr_Name attr)) "ref" then
        let split := Split (Attr_Value attr) ":" in
        mkRestrictionAttr (RestrictionAttr_XMLName a)
                          (Attr_Value attr)
                          (nth (List.length split - 1) split "")
                          (RestrictionAttr_Value a)
      else findRef rest a
  end.

(** The second loop:
<<
    for _, attr := range start.Attr {
        if attr.Name.Local == a.Key {
            a.Value = attr.Value
            break
        }
    }
>> *)
Fixpoint findValue (attrs : list Attr) (a : RestrictionAttr) : RestrictionAttr :=
  match attrs with
  | [] => a
  | attr :: rest =>
      if String.eqb (Local (Attr_Name attr)) (RestrictionAttr_Key a) then
        mkRestrictionAttr (RestrictionAttr_XMLName a)
                          (RestrictionAttr_Ref a)
                          (RestrictionAttr_Key a)
                          (Attr_Value attr)
      else findValue rest a
  end.

(** [func (a *RestrictionAttr) UnmarshalXML(d *xml.Decoder, start xml.StartElement) error].
    The receiver [a] and the decoder [d] are passed in and out; the first
    component is the returned [error] ([None] for [nil]). *)
Definition UnmarshalXML (a : RestrictionAttr) (d : Decoder) (start : StartElement)
  : option error * RestrictionAttr * Decoder :=
  let a := RestrictionAttr_zero in
  let a := mkRestrictionAttr (Start_Name start) (RestrictionAttr_Ref a)
                             (RestrictionAttr_Key a) (RestrictionAttr_Value a) in
  let a := findRef (Start_Attr start) a in
  if Nat.eqb (String.length (RestrictionAttr_Key a)) 0 then
    (Some errNoRef, a, d)
  else
    let a := findValue (Start_Attr start) a in
    let '(err, d') := Skip d in
    (err, a, d').

(** ** The element tree behind a token stream *)

(** What the token reader delivers: an element [mkElem start content] is a
    start element, the nodes up to its end element, and that end element; a
    node is an element, character data, a token the decoders ignore, or the
    point [NErr e] where [d.Token()] fails with [e] (malformed or truncated
    input).  Nothing after an [NErr] is ever read. *)
Inductive Elem : Type :=
| mkElem (start : StartElement) (children : list Node)
with Node : Type :=
| NElem (el : Elem)
| NCharData (data : string)
| NOther
| NErr (e : error).

Definition start (el : Elem) : StartElement := let 'mkElem st _ := el in st.
Definition children (el : Elem) : list Node := let 'mkElem _ cs := el in cs.

Definition firstSome {A : Type} (f : A -> option error) : list A -> option error :=
  fix go (l : list A) : option error :=
    match l with
    | [] => None
    | x :: l' =>
        match f x with
        | Some e => Some e
        | None => go l'
        end
    end.

(** The first read error inside an element, in document order. *)
Fixpoint firstErr (el : Elem) : option error :=
  let 'mkElem _ cs := el in
  firstSome (fun c => match c with
                      | NElem el' => firstErr el'
                      | NErr e => Some e
                      | _ => None
                      end) cs.

Definition firstErrNode (c : Node) : option error :=
  match c with
  | NElem el => firstErr el
  | NErr e => Some e
  | _ => None
  end.

(** The tokens that spell the content of an element, end element included:
    what a method called on the element finds in its decoder. *)
Fixpoint content (el : Elem) : Decoder :=
  let 'mkElem st cs := el in
  flat_map (fun c => match c with
                     | NElem el' => Ok (TStart (start el')) :: content el'
                     | NCharData s => [Ok (TCharData s)]
                     | NOther => [Ok TOther]
                     | NErr e => [Err e]
                     end) cs
  ++ [Ok (TEnd (Start_Name st))].

Definition tokens (c : Node) : Decoder :=
  match c with
  | NElem el => Ok (TStart (start el)) :: content el
  | NCharData s => [Ok (TCharData s)]
  | NOther => [Ok TOther]
  | NErr e => [Err e]
  end.

(** ** The document model

    One record per struct of types.go, fields in the order of the source.
    A pointer field is an [option], a slice a [list]; every [*_zero] is the
    struct's zero value. *)

(** [Address]: [XMLName `xml:"address"`], [Location `xml:"location,attr"`]. *)
Record Address : Type := mkAddress {
  Address_XMLName : Name;
  Address_Location : string
}.
Definition Address_zero : Address := mkAddress Name_zero "".

(** [Port]: [XMLName `xml:"port"`], [Name `xml:"name,attr"`],
    [Binding `xml:"binding,attr"`], [Address `xml:"address"`]. *)
Record Port : Type := mkPort {
  Port_XMLName : Name;
  Port_Name : string;
  Port_Binding : string;
  Port_Address : Address
}.
Definition Port_zero : Port := mkPort Name_zero "" "" Address_zero.

(** [Service]: [Doc `xml:"documentation"`], [Ports `xml:"port"`]. *)
Record Service : Type := mkService {
  Service_Doc : string;
  Service_Ports : list Port
}.
Definition Service_zero : Service := mkService "" [].

(** [Union]: [XMLName `xml:"union"`], [MemberTypes `xml:"memberTypes,attr"`]. *)
Record Union : Type := mkUnion {
  Union_XMLName : Name;
  Union_MemberTypes : string
}.
Definition Union_zero : Union := mkUnion Name_zero "".

(** [Enum]: [XMLName `xml:"enumeration"`], [Value `xml:"value,attr"`]. *)
Record Enum : Type := mkEnum {
  Enum_XMLName : Name;
  Enum_Value : string
}.
Definition Enum_zero : Enum := mkEnum Name_zero "".

(** [Restriction]: [XMLName `xml:"restriction"`], [Base `xml:"base,attr"`],
    [Enum `xml:"enumeration"`], [Attribute `xml:"attribute"`]. *)
Record Restriction : Type := mkRestriction {
  Restriction_XMLName : Name;
  Restriction_Base : string;
  Restriction_Enum : list Enum;
  Restriction_Attribute : option RestrictionAttr
}.
Definition Restriction_zero : Restriction := mkRestriction Name_zero "" [] None.

(** [SimpleType]: [XMLName `xml:"simpleType"`], [Name `xml:"name,attr"`],
    [Union `xml:"union"`], [Restriction `xml:"restriction"`]. *)
Record SimpleType : Type := mkSimpleType {
  SimpleType_XMLName : Name;
  SimpleType_Name : string;
  SimpleType_Union : option Union;
  SimpleType_Restriction : option Restriction
}.
Definition SimpleType_zero : SimpleType := mkSimpleType Name_zero "" None None.

(** [AnyElement]: [XMLName `xml:"any"`], [Min `xml:"minOccurs,attr"`],
    [Max `xml:"maxOccurs,attr"`]. *)
Record AnyElement : Type := mkAnyElement {
  AnyElement_XMLName : Name;
  AnyElement_Min : Z;
  AnyElement_Max : string
}.
Definition AnyElement_zero : AnyElement := mkAnyElement Name_zero 0%Z "".

(** The structs of the schema type graph refer to each other:
<<
    ComplexType    { XMLName `xml:"complexType"`; Name `xml:"name,attr"`;
                     Abstract `xml:"abstract,attr"`;
                     Doc `xml:"annotation>documentation"`;
                     AllElements []*Element `xml:"all>element"`;
                     ComplexContent *ComplexContent `xml:"complexContent"`;
                     Sequence *Sequence `xml:"sequence"` }
    ComplexContent { XMLName `xml:"complexContent"`;
                     Extension *Extension `xml:"extension"`;
                     Restriction *Restriction `xml:"restriction"` }
    Extension      { XMLName `xml:"extension"`; Base `xml:"base,attr"`;
                     Sequence *Sequence `xml:"sequence"` }
    Sequence       { XMLName `xml:"sequence"`;
                     ComplexTypes []*ComplexType `xml:"complexType"`;
                     Elements []*Element `xml:"element"`;
                     Any []*AnyElement `xml:"any"` }
    Element        { XMLName `xml:"element"`; Name `xml:"name,attr"`;
                     Ref `xml:"ref,attr"`; Type `xml:"type,attr"`;
                     Min int `xml:"minOccurs,attr"`;
                     Max string `xml:"maxOccurs,attr"`;
                     Nillable bool `xml:"nillable,attr"`;
                     ComplexType *ComplexType `xml:"complexType"` }
>> *)
Inductive ComplexType : Type := mkComplexType {
  ComplexType_XMLName : Name;
  ComplexType_Name : string;
  ComplexType_Abstract : bool;
  ComplexType_Doc : string;
  ComplexType_AllElements : list Element;
  ComplexType_ComplexContent : option ComplexContent;
  ComplexType_Sequence : option Sequence
}
with ComplexContent : Type := mkComplexContent {
  ComplexContent_XMLName : Name;
  ComplexContent_Extension : option Extension;
  ComplexContent_Restriction : option Restriction
}
with Extension : Type := mkExtension {
  Extension_XMLName : Name;
  Extension_Base : string;
  Extension_Sequence : option Sequence
}
with Sequence : Type := mkSequence {
  Sequence_XMLName : Name;
  Sequence_ComplexTypes : list ComplexType;
  Sequence_Elements : list Element;
  Sequence_Any : list AnyElement
}
with Element : Type := mkElement {
  Element_XMLName : Name;
  Element_Name : string;
  Element_Ref : string;
  Element_Type : string;
  Element_Min : Z;
  Element_Max : string;
  Element_Nillable : bool;
  Element_ComplexType : option ComplexType
}.

Definition ComplexType_zero : ComplexType :=
  mkComplexType Name_zero "" false "" [] None None.
Definition ComplexContent_zero : ComplexContent :=
  mkComplexContent Name_zero None None.
Definition Extension_zero : Extension := mkExtension Name_zero "" None.
Definition Sequence_zero : Sequence := mkSequence Name_zero [] [] [].
Definition Element_zero : Element :=
  mkElement Name_zero "" "" "" 0%Z "" false None.

(** [Import]: [XMLName `xml:"import"`], [Namespace `xml:"namespace,attr"`],
    [Location `xml:"location,attr"`]. *)
Record Import : Type := mkImport {
  Import_XMLName : Name;
  Import_Namespace : string;
  Import_Location : string
}.
Definition Import_zero : Import := mkImport Name_zero "" "".

(** [ImportSchema]: [XMLName `xml:"import"`],
    [Namespace `xml:"namespace,attr"`], [Location `xml:"schemaLocation,attr"`]. *)
Record ImportSchema : Type := mkImportSchema {
  ImportSchema_XMLName : Name;
  ImportSchema_Namespace : string;
  ImportSchema_Location : string
}.
Definition ImportSchema_zero : ImportSchema := mkImportSchema Name_zero "" "".

(** [Schema]: [XMLName `xml:"schema"`], [Imports `xml:"import"`],
    [SimpleTypes `xml:"simpleType"`], [ComplexTypes `xml:"complexType"`],
    [Elements `xml:"element"`]. *)
Record Schema : Type := mkSchema {
  Schema_XMLName : Name;
  Schema_Imports : list ImportSchema;
  Schema_SimpleTypes : list SimpleType;
  Schema_ComplexTypes : list ComplexType;
  Schema_Elements : list Element
}.
Definition Schema_zero : Schema := mkSchema Name_zero [] [] [] [].

(** [Part]: [XMLName `xml:"part"`], [Name `xml:"name,attr"`],
    [Type `xml:"type,attr,omitempty"`], [Element `xml:"element,attr,omitempty"`]. *)
Record Part : Type := mkPart {
  Part_XMLName : Name;
  Part_Name : string;
  Part_Type : string;
  Part_Element : string
}.
Definition Part_zero : Part := mkPart Name_zero "" "" "".

(** [Message]: [XMLName `xml:"message"`], [Name `xml:"name,attr"`],
    [Parts `xml:"part"`]. *)
Record Message : Type := mkMessage {
  Message_XMLName : Name;
  Message_Name : string;
  Message_Parts : list Part
}.
Definition Message_zero : Message := mkMessage Name_zero "" [].

(** [IO]: [XMLName] (untagged), [Message `xml:"message,attr"`]. *)
Record IO : Type := mkIO {
  IO_XMLName : Name;
  IO_Message : string
}.
Definition IO_zero : IO := mkIO Name_zero "".

(** [Operation]: [XMLName `xml:"operation"`], [Name `xml:"name,attr"`],
    [ParameterOrder `xml:"parameterOrder,attr,omitempty"`],
    [Doc `xml:"documentation"`], [Input `xml:"input"`], [Output `xml:"output"`]. *)
Record Operation : Type := mkOperation {
  Operation_XMLName : Name;
  Operation_Name : string;
  Operation_ParameterOrder : string;
  Operation_Doc : string;
  Operation_Input : option IO;
  Operation_Output : option IO
}.
Definition Operation_zero : Operation := mkOperation Name_zero "" "" "" None None.

(** [PortType]: [XMLName `xml:"portType"`], [Name `xml:"name,attr"`],
    [Operations `xml:"operation"`]. *)
Record PortType : Type := mkPortType {
  PortType_XMLName : Name;
  PortType_Name : string;
  PortType_Operations : list Operation
}.
Definition PortType_zero : PortType := mkPortType Name_zero "" [].

(** [SoapOperation]: [SoapAction `xml:"soapAction,attr"`]. *)
Record SoapOperation : Type := mkSoapOperation {
  SoapOperation_SoapAction : string
}.
Definition SoapOperation_zero : SoapOperation := mkSoapOperation "".

(** [BindingIO]: [Parts `xml:"parts,attr"`], [Use `xml:"use,attr"`]. *)
Record BindingIO : Type := mkBindingIO {
  BindingIO_Parts : string;
  BindingIO_Use : string
}.
Definition BindingIO_zero : BindingIO := mkBindingIO "" "".

(** [BindingOperation]: [XMLName `xml:"operation"`], [Name `xml:"name,attr"`],
    [Operation `xml:"operation"`], [Input `xml:"input>body"`],
    [Output `xml:"output>body"`]. *)
Record BindingOperation : Type := mkBindingOperation {
  BindingOperation_XMLName : Name;
  BindingOperation_Name : string;
  BindingOperation_Operation : option SoapOperation;
  BindingOperation_Input : option BindingIO;
  BindingOperation_Output : option BindingIO
}.
Definition BindingOperation_zero : BindingOperation :=
  mkBindingOperation Name_zero "" None None None.

(** [Binding]: [XMLName `xml:"binding"`], [Name `xml:"name,attr"`],
    [Type `xml:"type,attr"`], [Operations `xml:"operation"`]. *)
Record Binding : Type := mkBinding {
  Binding_XMLName : Name;
  Binding_Name : string;
  Binding_Type : string;
  Binding_Operations : list BindingOperation
}.
Definition Binding_zero : Binding := mkBinding Name_zero "" "" [].

(** [Definitions], the root: [XMLName `xml:"definitions"`],
    [Name `xml:"name,attr"`], [TargetNamespace `xml:"targetNamespace,attr"`],
    [SOAPEnv `xml:"SOAP-ENV,attr"`], [SOAPEnc `xml:"SOAP-ENC,attr"`],
    [Service `xml:"service"`], [Imports `xml:"import"`],
    [Schema `xml:"types>schema"`], [Messages `xml:"message"`],
    [PortType `xml:"portType"`], [Binding `xml:"binding"`]. *)
Record Definitions : Type := mkDefinitions {
  Definitions_XMLName : Name;
  Definitions_Name : string;
  Definitions_TargetNamespace : string;
  Definitions_SOAPEnv : string;
  Definitions_SOAPEnc : string;
  Definitions_Service : Service;
  Definitions_Imports : list Import;
  Definitions_Schema : Schema;
  Definitions_Messages : list Message;
  Definitions_PortType : PortType;
  Definitions_Binding : Binding
}.
Definition Definitions_zero : Definitions :=
  mkDefinitions Name_zero "" "" "" "" Service_zero [] Schema_zero []
                PortType_zero Binding_zero.

(** ** encoding/xml: tag-driven decoding of structs *)

(** [strings.TrimSpace], [strconv.ParseInt(s, 10, 64)] and
    [strconv.ParseBool], which [encoding/xml] applies to the text of [int]
    and [bool] attributes. *)
Class Strconv : Type := {
  TrimSpace : string -> string;
  ParseInt : string -> result Z;
  ParseBool : string -> result bool
}.

Section Decoding.
Context {strconv : Strconv}.

(** [copyValue] into an [int]. *)
Definition copyInt (src : string) : result Z :=
  if Nat.eqb (String.length src) 0 then Ok 0%Z else ParseInt (TrimSpace src).

(** [copyValue] into a [bool]. *)
Definition copyBool (src : string) : result bool :=
  if Nat.eqb (String.length src) 0 then Ok false else ParseBool (TrimSpace src).

(** [d.Skip()] on an element that no field claims. *)
Definition skip {T : Type} (v : T) (el : Elem) : result T :=
  match firstErr el with
  | Some e => Err e
  | None => Ok v
  end.

(** One round of the loop over the content of an element: a start element
    goes to [elem], a read error ends the decoding, anything else is passed
    over. *)
Definition child {T : Type} (elem : T -> Elem -> result T)
  (v : T) (c : Node) : result T :=
  match c with
  | NElem el => elem v el
  | NErr e => Err e
  | _ => Ok v
  end.

Definition local (el : Elem) : string := Local (Start_Name (start el)).

(** [unmarshalPath] below a parent: for a field tagged ["parent>tag"], the
    children of [<parent>] named [tag] are decoded by [elem], the others
    skipped. *)
Definition within {T : Type} (tag : string) (elem : T -> Elem -> result T)
  (v : T) (parent : Elem) : result T :=
  foldM (child (fun v el =>
                  if String.eqb (local el) tag then elem v el else skip v el))
        (children parent) v.

(** Decoding an element into a [string] field: the character data directly
    inside it; nested elements are skipped. *)
Definition unmarshalString (el : Elem) : result string :=
  foldM (fun data c =>
           match c with
           | NElem el' => skip data el'
           | NCharData s => Ok (data ++ s)%string
           | NOther => Ok data
           | NErr e => Err e
           end) (children el) "".

(** The [XMLName] field of a struct: the name its tag demands (empty if it
    demands none) and the assignment to the field. *)
Definition XMLNameInfo (T : Type) : Type := option (string * (T -> Name -> T)).

Definition setXMLName {T : Type} (x : XMLNameInfo T) (v : T) (st : StartElement)
  : result T :=
  match x with
  | None => Ok v
  | Some (want, set) =>
      if negb (String.eqb want "") && negb (String.eqb want (Local (Start_Name st)))
      then Err (UnmarshalError ("expected element type <" ++ want ++ "> but have <"
                                ++ Local (Start_Name st) ++ ">")%string)
      else Ok (set v (Start_Name st))
  end.

(** [d.unmarshal] into a struct: check and record the element name, bind
    every attribute, then decode the content child by child. *)
Definition unmarshalStruct {T : Type} (x : XMLNameInfo T)
  (attr : T -> Attr -> result T) (elem : T -> Elem -> result T)
  (v : T) (el : Elem) : result T :=
  let 'mkElem st cs := el in
  v <- setXMLName x v st ;;
  v <- foldM attr (Start_Attr st) v ;;
  foldM (child elem) cs v.

(** A nil pointer is allocated before it is decoded into. *)
Definition deref {T : Type} (zero : T) (p : option T) : T :=
  match p with
  | Some v => v
  | None => zero
  end.

(** [Decoder.unmarshalInterface] for [*RestrictionAttr]: the method runs
    on the content of its element and must have read its end element. *)
Definition unmarshalInterface (a : RestrictionAttr) (el : Elem)
  : result RestrictionAttr :=
  match UnmarshalXML a (content el) (start el) with
  | (Some e, _, _) => Err e
  | (None, a', []) => Ok a'
  | (None, _, _ :: _) =>
      Err (Errorf ("xml: *wsdl.RestrictionAttr.UnmarshalXML did not consume entire <"
                   ++ local el ++ "> element")%string)
  end.

(** *** The decoders of the structs

    For every struct [T]: [T_attr] binds one attribute (the fields tagged
    [,attr], by local name), [T_elem] dispatches one child element on its
    local name to the field tagged with it (in the order of the fields; a
    slice field appends a freshly decoded value, a struct or non-nil pointer
    field is decoded into again, a child no field claims is skipped), and
    [unmarshalT] is [d.unmarshal] at type [T].  The bound that recent
    versions of [encoding/xml] put on the nesting depth is not modelled. *)

Local Notation "s =? t" := (String.eqb s t) (at level 70).
Local Abbreviation aname a := (Local (Attr_Name a)).

Definition decoder (T : Type) : Type := T -> Elem -> result T.

Definition noAttr {T : Type} (v : T) (a : Attr) : result T := Ok v.

(** Address *)
Definition Address_attr (v : Address) (a : Attr) : result Address :=
  let 'mkAddress xn loc := v in
  if aname a =? "location" then Ok (mkAddress xn (Attr_Value a)) else Ok v.

Definition Address_elem (v : Address) (el : Elem)
  : result Address := skip v el.

Definition unmarshalAddress : decoder Address :=
  unmarshalStruct (Some ("address", fun v n => mkAddress n (Address_Location v)))
                  Address_attr Address_elem.

(** Port *)
Definition Port_attr (v : Port) (a : Attr) : result Port :=
  let 'mkPort xn nm bd ad := v in
  if aname a =? "name" then Ok (mkPort xn (Attr_Value a) bd ad)
  else if aname a =? "binding" then Ok (mkPort xn nm (Attr_Value a) ad)
  else Ok v.

Definition Port_elem (v : Port) (el : Elem) : result Port :=
  let 'mkPort xn nm bd ad := v in
  if local el =? "address" then
    ad' <- unmarshalAddress ad el ;; Ok (mkPort xn nm bd ad')
  else skip v el.

Definition unmarshalPort : decoder Port :=
  unmarshalStruct
    (Some ("port", fun v n => mkPort n (Port_Name v) (Port_Binding v) (Port_Address v)))
    Port_attr Port_elem.

(** Service *)
Definition Service_elem (v : Service) (el : Elem)
  : result Service :=
  let 'mkService doc ports := v in
  if local el =? "documentation" then
    doc' <- unmarshalString el ;; Ok (mkService doc' ports)
  else if local el =? "port" then
    p <- unmarshalPort Port_zero el ;; Ok (mkService doc (ports ++ [p]))
  else skip v el.

Definition unmarshalService : decoder Service :=
  unmarshalStruct None noAttr Service_elem.

(** Union *)
Definition Union_attr (v : Union) (a : Attr) : result Union :=
  let 'mkUnion xn mt := v in
  if aname a =? "memberTypes" then Ok (mkUnion xn (Attr_Value a)) else Ok v.

Definition Union_elem (v : Union) (el : Elem)
  : result Union := skip v el.

Definition unmarshalUnion : decoder Union :=
  unmarshalStruct (Some ("union", fun v n => mkUnion n (Union_MemberTypes v)))
                  Union_attr Union_elem.

(** Enum *)
Definition Enum_attr (v : Enum) (a : Attr) : result Enum :=
  let 'mkEnum xn val := v in
  if aname a =? "value" then Ok (mkEnum xn (Attr_Value a)) else Ok v.

Definition Enum_elem (v : Enum) (el : Elem)
  : result Enum := skip v el.

Definition unmarshalEnum : decoder Enum :=
  unmarshalStruct (Some ("enumeration", fun v n => mkEnum n (Enum_Value v)))
                  Enum_attr Enum_elem.

(** Restriction.  The [attribute] child goes to the method of
    [*RestrictionAttr], on the value the pointer already holds if any. *)
Definition Restriction_attr (v : Restriction) (a : Attr) : result Restriction :=
  let 'mkRestriction xn base en at_ := v in
  if aname a =? "base" then Ok (mkRestriction xn (Attr_Value a) en at_) else Ok v.

Definition Restriction_elem (v : Restriction) (el : Elem)
  : result Restriction :=
  let 'mkRestriction xn base en at_ := v in
  if local el =? "enumeration" then
    e <- unmarshalEnum Enum_zero el ;; Ok (mkRestriction xn base (en ++ [e]) at_)
  else if local el =? "attribute" then
    a <- unmarshalInterface (deref RestrictionAttr_zero at_) el ;;
    Ok (mkRestriction xn base en (Some a))
  else skip v el.

Definition unmarshalRestriction
  : decoder Restriction :=
  unmarshalStruct
    (Some ("restriction",
           fun v n => mkRestriction n (Restriction_Base v) (Restriction_Enum v)
                                    (Restriction_Attribute v)))
    Restriction_attr Restriction_elem.

(** SimpleType *)
Definition SimpleType_attr (v : SimpleType) (a : Attr) : result SimpleType :=
  let 'mkSimpleType xn nm un re := v in
  if aname a =? "name" then Ok (mkSimpleType xn (Attr_Value a) un re) else Ok v.

Definition SimpleType_elem (v : SimpleType) (el : Elem)
  : result SimpleType :=
  let 'mkSimpleType xn nm un re := v in
  if local el =? "union" then
    u <- unmarshalUnion (deref Union_zero un) el ;;
    Ok (mkSimpleType xn nm (Some u) re)
  else if local el =? "restriction" then
    r <- unmarshalRestriction (deref Restriction_zero re) el ;;
    Ok (mkSimpleType xn nm un (Some r))
  else skip v el.

Definition unmarshalSimpleType
  : decoder SimpleType :=
  unmarshalStruct
    (Some ("simpleType",
           fun v n => mkSimpleType n (SimpleType_Name v) (SimpleType_Union v)
                                   (SimpleType_Restriction v)))
    SimpleType_attr SimpleType_elem.

(** AnyElement *)
Definition AnyElement_attr (v : AnyElement) (a : Attr) : result AnyElement :=
  let 'mkAnyElement xn mn mx := v in
  if aname a =? "minOccurs" then
    mn' <- copyInt (Attr_Value a) ;; Ok (mkAnyElement xn mn' mx)
  else if aname a =? "maxOccurs" then Ok (mkAnyElement xn mn (Attr_Value a))
  else Ok v.

Definition AnyElement_elem (v : AnyElement) (el : Elem)
  : result AnyElement := skip v el.

Definition unmarshalAnyElement
  : decoder AnyElement :=
  unmarshalStruct
    (Some ("any", fun v n => mkAnyElement n (AnyElement_Min v) (AnyElement_Max v)))
    AnyElement_attr AnyElement_elem.

(** The schema type graph.  The child dispatchers take the decoders of the
    structs they lead to, which are tied together below. *)

Definition ComplexType_attr (v : ComplexType) (a : Attr) : result ComplexType :=
  let 'mkComplexType xn nm ab doc al cc sq := v in
  if aname a =? "name" then Ok (mkComplexType xn (Attr_Value a) ab doc al cc sq)
  else if aname a =? "abstract" then
    ab' <- copyBool (Attr_Value a) ;; Ok (mkComplexType xn nm ab' doc al cc sq)
  else Ok v.

Definition ComplexType_elem (uElement : decoder Element)
  (uComplexContent : decoder ComplexContent) (uSequence : decoder Sequence)
  (v : ComplexType) (el : Elem) : result ComplexType :=
  if local el =? "annotation" then
    within "documentation"
      (fun v el' =>
         let 'mkComplexType xn nm ab doc al cc sq := v in
         doc' <- unmarshalString el' ;; Ok (mkComplexType xn nm ab doc' al cc sq))
      v el
  else if local el =? "all" then
    within "element"
      (fun v el' =>
         let 'mkComplexType xn nm ab doc al cc sq := v in
         e <- uElement Element_zero el' ;;
         Ok (mkComplexType xn nm ab doc (al ++ [e]) cc sq))
      v el
  else if local el =? "complexContent" then
    let 'mkComplexType xn nm ab doc al cc sq := v in
    c <- uComplexContent (deref ComplexContent_zero cc) el ;;
    Ok (mkComplexType xn nm ab doc al (Some c) sq)
  else if local el =? "sequence" then
    let 'mkComplexType xn nm ab doc al cc sq := v in
    s <- uSequence (deref Sequence_zero sq) el ;;
    Ok (mkComplexType xn nm ab doc al cc (Some s))
  else skip v el.

Definition ComplexContent_elem (uExtension : decoder Extension)
  (v : ComplexContent) (el : Elem) : result ComplexContent :=
  let 'mkComplexContent xn ex re := v in
  if local el =? "extension" then
    e <- uExtension (deref Extension_zero ex) el ;;
    Ok (mkComplexContent xn (Some e) re)
  else if local el =? "restriction" then
    r <- unmarshalRestriction (deref Restriction_zero re) el ;;
    Ok (mkComplexContent xn ex (Some r))
  else skip v el.

Definition Extension_attr (v : Extension) (a : Attr) : result Extension :=
  let 'mkExtension xn base sq := v in
  if aname a =? "base" then Ok (mkExtension xn (Attr_Value a) sq) else Ok v.

Definition Extension_elem (uSequence : decoder Sequence)
  (v : Extension) (el : Elem) : result Extension :=
  let 'mkExtension xn base sq := v in
  if local el =? "sequence" then
    s <- uSequence (deref Sequence_zero sq) el ;;
    Ok (mkExtension xn base (Some s))
  else skip v el.

Definition Sequence_elem (uComplexType : decoder ComplexType)
  (uElement : decoder Element)
  (v : Sequence) (el : Elem) : result Sequence :=
  let 'mkSequence xn cts els any := v in
  if local el =? "complexType" then
    c <- uComplexType ComplexType_zero el ;;
    Ok (mkSequence xn (cts ++ [c]) els any)
  else if local el =? "element" then
    e <- uElement Element_zero el ;;
    Ok (mkSequence xn cts (els ++ [e]) any)
  else if local el =? "any" then
    a <- unmarshalAnyElement AnyElement_zero el ;;
    Ok (mkSequence xn cts els (any ++ [a]))
  else skip v el.

Definition Element_attr (v : Element) (a : Attr) : result Element :=
  let 'mkElement xn nm rf ty mn mx nl ct := v in
  if aname a =? "name" then Ok (mkElement xn (Attr_Value a) rf ty mn mx nl ct)
  else if aname a =? "ref" then Ok (mkElement xn nm (Attr_Value a) ty mn mx nl ct)
  else if aname a =? "type" then Ok (mkElement xn nm rf (Attr_Value a) mn mx nl ct)
  else if aname a =? "minOccurs" then
    mn' <- copyInt (Attr_Value a) ;; Ok (mkElement xn nm rf ty mn' mx nl ct)
  else if aname a =? "maxOccurs" then
    Ok (mkElement xn nm rf ty mn (Attr_Value a) nl ct)
  else if aname a =? "nillable" then
    nl' <- copyBool (Attr_Value a) ;; Ok (mkElement xn nm rf ty mn mx nl' ct)
  else Ok v.

Definition Element_elem (uComplexType : decoder ComplexType)
  (v : Element) (el : Elem) : result Element :=
  let 'mkElement xn nm rf ty mn mx nl ct := v in
  if local el =? "complexType" then
    c <- uComplexType (deref ComplexType_zero ct) el ;;
    Ok (mkElement xn nm rf ty mn mx nl (Some c))
  else skip v el.

Definition ComplexType_x : XMLNameInfo ComplexType :=
  Some ("complexType",
        fun v n => mkComplexType n (ComplexType_Name v) (ComplexType_Abstract v)
                     (ComplexType_Doc v) (ComplexType_AllElements v)
                     (ComplexType_ComplexContent v) (ComplexType_Sequence v)).
Definition ComplexContent_x : XMLNameInfo ComplexContent :=
  Some ("complexContent",
        fun v n => mkComplexContent n (ComplexContent_Extension v)
                     (ComplexContent_Restriction v)).
Definition Extension_x : XMLNameInfo Extension :=
  Some ("extension",
        fun v n => mkExtension n (Extension_Base v) (Extension_Sequence v)).
Definition Sequence_x : XMLNameInfo Sequence :=
  Some ("sequence",
        fun v n => mkSequence n (Sequence_ComplexTypes v) (Sequence_Elements v)
                     (Sequence_Any v)).
Definition Element_x : XMLNameInfo Element :=
  Some ("element",
        fun v n => mkElement n (Element_Name v) (Element_Ref v) (Element_Type v)
                     (Element_Min v) (Element_Max v) (Element_Nillable v)
                     (Element_ComplexType v)).

Fixpoint unmarshalComplexType (v : ComplexType) (el : Elem) {struct el} : result ComplexType :=
  unmarshalStruct ComplexType_x ComplexType_attr
    (ComplexType_elem unmarshalElement unmarshalComplexContent unmarshalSequence)
    v el
with unmarshalComplexContent (v : ComplexContent) (el : Elem) {struct el} : result ComplexContent :=
  unmarshalStruct ComplexContent_x noAttr (ComplexContent_elem unmarshalExtension)
    v el
with unmarshalExtension (v : Extension) (el : Elem) {struct el} : result Extension :=
  unmarshalStruct Extension_x Extension_attr (Extension_elem unmarshalSequence)
    v el
with unmarshalSequence (v : Sequence) (el : Elem) {struct el} : result Sequence :=
  unmarshalStruct Sequence_x noAttr
    (Sequence_elem unmarshalComplexType unmarshalElement) v el
with unmarshalElement (v : Element) (el : Elem) {struct el} : result Element :=
  unmarshalStruct Element_x Element_attr (Element_elem unmarshalComplexType)
    v el.

(** Import *)
Definition Import_attr (v : Import) (a : Attr) : result Import :=
  let 'mkImport xn ns loc := v in
  if aname a =? "namespace" then Ok (mkImport xn (Attr_Value a) loc)
  else if aname a =? "location" then Ok (mkImport xn ns (Attr_Value a))
  else Ok v.

Definition Import_elem (v : Import) (el : Elem) : result Import := skip v el.

Definition unmarshalImport : decoder Import :=
  unmarshalStruct
    (Some ("import", fun v n => mkImport n (Import_Namespace v) (Import_Location v)))
    Import_attr Import_elem.

(** ImportSchema *)
Definition ImportSchema_attr (v : ImportSchema) (a : Attr) : result ImportSchema :=
  let 'mkImportSchema xn ns loc := v in
  if aname a =? "namespace" then Ok (mkImportSchema xn (Attr_Value a) loc)
  else if aname a =? "schemaLocation" then Ok (mkImportSchema xn ns (Attr_Value a))
  else Ok v.

Definition ImportSchema_elem (v : ImportSchema) (el : Elem) : result ImportSchema :=
  skip v el.

Definition unmarshalImportSchema : decoder ImportSchema :=
  unmarshalStruct
    (Some ("import",
           fun v n => mkImportSchema n (ImportSchema_Namespace v)
                                     (ImportSchema_Location v)))
    ImportSchema_attr ImportSchema_elem.

(** Schema *)
Definition Schema_elem (v : Schema) (el : Elem) : result Schema :=
  let 'mkSchema xn im sts cts els := v in
  if local el =? "import" then
    i <- unmarshalImportSchema ImportSchema_zero el ;;
    Ok (mkSchema xn (im ++ [i]) sts cts els)
  else if local el =? "simpleType" then
    s <- unmarshalSimpleType SimpleType_zero el ;;
    Ok (mkSchema xn im (sts ++ [s]) cts els)
  else if local el =? "complexType" then
    c <- unmarshalComplexType ComplexType_zero el ;;
    Ok (mkSchema xn im sts (cts ++ [c]) els)
  else if local el =? "element" then
    e <- unmarshalElement Element_zero el ;;
    Ok (mkSchema xn im sts cts (els ++ [e]))
  else skip v el.

Definition unmarshalSchema : decoder Schema :=
  unmarshalStruct
    (Some ("schema",
           fun v n => mkSchema n (Schema_Imports v) (Schema_SimpleTypes v)
                               (Schema_ComplexTypes v) (Schema_Elements v)))
    noAttr Schema_elem.

(** Part *)
Definition Part_attr (v : Part) (a : Attr) : result Part :=
  let 'mkPart xn nm ty el := v in
  if aname a =? "name" then Ok (mkPart xn (Attr_Value a) ty el)
  else if aname a =? "type" then Ok (mkPart xn nm (Attr_Value a) el)
  else if aname a =? "element" then Ok (mkPart xn nm ty (Attr_Value a))
  else Ok v.

Definition Part_elem (v : Part) (el : Elem) : result Part := skip v el.

Definition unmarshalPart : decoder Part :=
  unmarshalStruct
    (Some ("part", fun v n => mkPart n (Part_Name v) (Part_Type v) (Part_Element v)))
    Part_attr Part_elem.

(** Message *)
Definition Message_attr (v : Message) (a : Attr) : result Message :=
  let 'mkMessage xn nm ps := v in
  if aname a =? "name" then Ok (mkMessage xn (Attr_Value a) ps) else Ok v.

Definition Message_elem (v : Message) (el : Elem) : result Message :=
  let 'mkMessage xn nm ps := v in
  if local el =? "part" then
    p <- unmarshalPart Part_zero el ;; Ok (mkMessage xn nm (ps ++ [p]))
  else skip v el.

Definition unmarshalMessage : decoder Message :=
  unmarshalStruct
    (Some ("message", fun v n => mkMessage n (Message_Name v) (Message_Parts v)))
    Message_attr Message_elem.

(** IO: its [XMLName] has no tag, so any element name is accepted. *)
Definition IO_attr (v : IO) (a : Attr) : result IO :=
  let 'mkIO xn msg := v in
  if aname a =? "message" then Ok (mkIO xn (Attr_Value a)) else Ok v.

Definition IO_elem (v : IO) (el : Elem) : result IO := skip v el.

Definition unmarshalIO : decoder IO :=
  unmarshalStruct (Some ("", fun v n => mkIO n (IO_Message v))) IO_attr IO_elem.

(** Operation *)
Definition Operation_attr (v : Operation) (a : Attr) : result Operation :=
  let 'mkOperation xn nm po doc inp out := v in
  if aname a =? "name" then Ok (mkOperation xn (Attr_Value a) po doc inp out)
  else if aname a =? "parameterOrder" then
    Ok (mkOperation xn nm (Attr_Value a) doc inp out)
  else Ok v.

Definition Operation_elem (v : Operation) (el : Elem) : result Operation :=
  let 'mkOperation xn nm po doc inp out := v in
  if local el =? "documentation" then
    doc' <- unmarshalString el ;; Ok (mkOperation xn nm po doc' inp out)
  else if local el =? "input" then
    i <- unmarshalIO (deref IO_zero inp) el ;;
    Ok (mkOperation xn nm po doc (Some i) out)
  else if local el =? "output" then
    o <- unmarshalIO (deref IO_zero out) el ;;
    Ok (mkOperation xn nm po doc inp (Some o))
  else skip v el.

Definition unmarshalOperation : decoder Operation :=
  unmarshalStruct
    (Some ("operation",
           fun v n => mkOperation n (Operation_Name v) (Operation_ParameterOrder v)
                        (Operation_Doc v) (Operation_Input v) (Operation_Output v)))
    Operation_attr Operation_elem.

(** PortType *)
Definition PortType_attr (v : PortType) (a : Attr) : result PortType :=
  let 'mkPortType xn nm ops := v in
  if aname a =? "name" then Ok (mkPortType xn (Attr_Value a) ops) else Ok v.

Definition PortType_elem (v : PortType) (el : Elem) : result PortType :=
  let 'mkPortType xn nm ops := v in
  if local el =? "operation" then
    o <- unmarshalOperation Operation_zero el ;; Ok (mkPortType xn nm (ops ++ [o]))
  else skip v el.

Definition unmarshalPortType : decoder PortType :=
  unmarshalStruct
    (Some ("portType",
           fun v n => mkPortType n (PortType_Name v) (PortType_Operations v)))
    PortType_attr PortType_elem.

(** SoapOperation *)
Definition SoapOperation_attr (v : SoapOperation) (a : Attr) : result SoapOperation :=
  if aname a =? "soapAction" then Ok (mkSoapOperation (Attr_Value a)) else Ok v.

Definition SoapOperation_elem (v : SoapOperation) (el : Elem)
  : result SoapOperation := skip v el.

Definition unmarshalSoapOperation : decoder SoapOperation :=
  unmarshalStruct None SoapOperation_attr SoapOperation_elem.

(** BindingIO *)
Definition BindingIO_attr (v : BindingIO) (a : Attr) : result BindingIO :=
  let 'mkBindingIO ps us := v in
  if aname a =? "parts" then Ok (mkBindingIO (Attr_Value a) us)
  else if aname a =? "use" then Ok (mkBindingIO ps (Attr_Value a))
  else Ok v.

Definition BindingIO_elem (v : BindingIO) (el : Elem) : result BindingIO :=
  skip v el.

Definition unmarshalBindingIO : decoder BindingIO :=
  unmarshalStruct None BindingIO_attr BindingIO_elem.

(** BindingOperation *)
Definition BindingOperation_attr (v : BindingOperation) (a : Attr)
  : result BindingOperation :=
  let 'mkBindingOperation xn nm op inp out := v in
  if aname a =? "name" then Ok (mkBindingOperation xn (Attr_Value a) op inp out)
  else Ok v.

Definition BindingOperation_elem (v : BindingOperation) (el : Elem)
  : result BindingOperation :=
  if local el =? "operation" then
    let 'mkBindingOperation xn nm op inp out := v in
    o <- unmarshalSoapOperation (deref SoapOperation_zero op) el ;;
    Ok (mkBindingOperation xn nm (Some o) inp out)
  else if local el =? "input" then
    within "body"
      (fun v el' =>
         let 'mkBindingOperation xn nm op inp out := v in
         i <- unmarshalBindingIO (deref BindingIO_zero inp) el' ;;
         Ok (mkBindingOperation xn nm op (Some i) out))
      v el
  else if local el =? "output" then
    within "body"
      (fun v el' =>
         let 'mkBindingOperation xn nm op inp out := v in
         o <- unmarshalBindingIO (deref BindingIO_zero out) el' ;;
         Ok (mkBindingOperation xn nm op inp (Some o)))
      v el
  else skip v el.

Definition unmarshalBindingOperation : decoder BindingOperation :=
  unmarshalStruct
    (Some ("operation",
           fun v n => mkBindingOperation n (BindingOperation_Name v)
                        (BindingOperation_Operation v) (BindingOperation_Input v)
                        (BindingOperation_Output v)))
    BindingOperation_attr BindingOperation_elem.

(** Binding *)
Definition Binding_attr (v : Binding) (a : Attr) : result Binding :=
  let 'mkBinding xn nm ty ops := v in
  if aname a =? "name" then Ok (mkBinding xn (Attr_Value a) ty ops)
  else if aname a =? "type" then Ok (mkBinding xn nm (Attr_Value a) ops)
  else Ok v.

Definition Binding_elem (v : Binding) (el : Elem) : result Binding :=
  let 'mkBinding xn nm ty ops := v in
  if local el =? "operation" then
    o <- unmarshalBindingOperation BindingOperation_zero el ;;
    Ok (mkBinding xn nm ty (ops ++ [o]))
  else skip v el.

Definition unmarshalBinding : decoder Binding :=
  unmarshalStruct
    (Some ("binding",
           fun v n => mkBinding n (Binding_Name v) (Binding_Type v)
                                (Binding_Operations v)))
    Binding_attr Binding_elem.

(** Definitions *)
Definition Definitions_attr (v : Definitions) (a : Attr) : result Definitions :=
  let 'mkDefinitions xn nm tns env enc sv im sc ms pt bd := v in
  if aname a =? "name" then
    Ok (mkDefinitions xn (Attr_Value a) tns env enc sv im sc ms pt bd)
  else if aname a =? "targetNamespace" then
    Ok (mkDefinitions xn nm (Attr_Value a) env enc sv im sc ms pt bd)
  else if aname a =? "SOAP-ENV" then
    Ok (mkDefinitions xn nm tns (Attr_Value a) enc sv im sc ms pt bd)
  else if aname a =? "SOAP-ENC" then
    Ok (mkDefinitions xn nm tns env (Attr_Value a) sv im sc ms pt bd)
  else Ok v.

Definition Definitions_elem (v : Definitions) (el : Elem) : result Definitions :=
  if local el =? "service" then
    let 'mkDefinitions xn nm tns env enc sv im sc ms pt bd := v in
    s <- unmarshalService sv el ;;
    Ok (mkDefinitions xn nm tns env enc s im sc ms pt bd)
  else if local el =? "import" then
    let 'mkDefinitions xn nm tns env enc sv im sc ms pt bd := v in
    i <- unmarshalImport Import_zero el ;;
    Ok (mkDefinitions xn nm tns env enc sv (im ++ [i]) sc ms pt bd)
  else if local el =? "types" then
    within "schema"
      (fun v el' =>
         let 'mkDefinitions xn nm tns env enc sv im sc ms pt bd := v in
         s <- unmarshalSchema sc el' ;;
         Ok (mkDefinitions xn nm tns env enc sv im s ms pt bd))
      v el
  else if local el =? "message" then
    let 'mkDefinitions xn nm tns env enc sv im sc ms pt bd := v in
    m <- unmarshalMessage Message_zero el ;;
    Ok (mkDefinitions xn nm tns env enc sv im sc (ms ++ [m]) pt bd)
  else if local el =? "portType" then
    let 'mkDefinitions xn nm tns env enc sv im sc ms pt bd := v in
    p <- unmarshalPortType pt el ;;
    Ok (mkDefinitions xn nm tns env enc sv im sc ms p bd)
  else if local el =? "binding" then
    let 'mkDefinitions xn nm tns env enc sv im sc ms pt bd := v in
    b <- unmarshalBinding bd el ;;
    Ok (mkDefinitions xn nm tns env enc sv im sc ms pt b)
  else skip v el.

Definition Definitions_x : XMLNameInfo Definitions :=
  Some ("definitions",
        fun v n =>
          mkDefinitions n (Definitions_Name v) (Definitions_TargetNamespace v)
            (Definitions_SOAPEnv v) (Definitions_SOAPEnc v) (Definitions_Service v)
            (Definitions_Imports v) (Definitions_Schema v) (Definitions_Messages v)
            (Definitions_PortType v) (Definitions_Binding v)).

Definition unmarshalDefinitions : decoder Definitions :=
  unmarshalStruct Definitions_x Definitions_attr Definitions_elem.

(** Modelled from the spec: the decode entry point, which types.go does not
    contain.  It is given the input, consumes it front to back once, and
    "either completes with a fully populated Document or aborts with an
    error, discarding any partially built state".  The input is given as the
    nodes the token reader delivers for it.  As [encoding/xml] does when
    asked to decode into a fresh [Definitions], the tokens before the first
    start element are passed over, that element is decoded as the root, and
    nothing after its end element is read. *)
Fixpoint Unmarshal (doc : list Node) : result Definitions :=
  match doc with
  | [] => Err EOF
  | NElem el :: _ => unmarshalDefinitions Definitions_zero el
  | NErr e :: _ => Err e
  | _ :: doc' => Unmarshal doc'
  end.

End Decoding.

(** ** A reference instance of the conversions

    [strings.TrimSpace], [strconv.ParseInt(s, 10, 64)] and
    [strconv.ParseBool] on ASCII text; the theorems below hold for every
    instance, the examples run on this one. *)

Definition isSpace (c : ascii) : bool :=
  match nat_of_ascii c with
  | 9 | 10 | 11 | 12 | 13 | 32 => true
  | _ => false
  end.

Fixpoint trimLeft (s : string) : string :=
  match s with
  | String c s' => if isSpace c then trimLeft s' else s
  | EmptyString => EmptyString
  end.

Fixpoint trimRight (s : string) : string :=
  match s with
  | String c s' =>
      match trimRight s' with
      | EmptyString => if isSpace c then EmptyString else String c EmptyString
      | t => String c t
      end
  | EmptyString => EmptyString
  end.

Definition digit (c : ascii) : option Z :=
  let n := nat_of_ascii c in
  if (48 <=? n)%nat && (n <=? 57)%nat then Some (Z.of_nat (n - 48)) else None.

Fixpoint digits (s : string) (acc : Z) : option Z :=
  match s with
  | EmptyString => Some acc
  | String c s' =>
      match digit c with
      | Some d => digits s' (10 * acc + d)%Z
      | None => None
      end
  end.

Definition parseInt64 (s : string) : result Z :=
  let '(neg, body) :=
    match s with
    | String "-"%char t => (true, t)
    | String "+"%char t => (false, t)
    | _ => (false, s)
    end in
  match body with
  | EmptyString => Err (NumError "ParseInt" s)
  | _ =>
      match digits body 0 with
      | Some n =>
          let z := if neg then (- n)%Z else n in
          if ((- 2 ^ 63 <=? z) && (z <? 2 ^ 63))%Z then Ok z
          else Err (NumError "ParseInt" s)
      | None => Err (NumError "ParseInt" s)
      end
  end.

Definition parseBool (s : string) : result bool :=
  if existsb (String.eqb s) ["1"; "t"; "T"; "TRUE"; "true"; "True"] then Ok true
  else if existsb (String.eqb s) ["0"; "f"; "F"; "FALSE"; "false"; "False"] then Ok false
  else Err (NumError "ParseBool" s).

#[export] Instance ascii_strconv : Strconv := {|
  TrimSpace := fun s => trimRight (trimLeft s);
  ParseInt := parseInt64;
  ParseBool := parseBool
|}.

(** ** Vocabulary of the statements *)

(** The value of the first attribute whose local name is [name]. *)
Fixpoint lookupLocal (name : string) (attrs : list Attr) : option string :=
  match attrs with
  | [] => None
  | attr :: rest =>
      if String.eqb (Local (Attr_Name attr)) name then Some (Attr_Value attr)
      else lookupLocal name rest
  end.


(** The attribute set has an attribute of local name [name] and value
    [value]. *)
Definition carries (attrs : list Attr) (name value : string) : bool :=
  existsb (fun a => String.eqb (Local (Attr_Name a)) name
                    && String.eqb (Attr_Value a) value) attrs.

(** The attribute set has no attribute of local name [name]. *)
Definition lacks (attrs : list Attr) (name : string) : bool :=
  negb (existsb (fun a => String.eqb (Local (Attr_Name a)) name) attrs).

(** No two attributes of the set have the same local name. *)
Fixpoint distinctLocals (attrs : list Attr) : bool :=
  match attrs with
  | [] => true
  | a :: rest => lacks rest (Local (Attr_Name a)) && distinctLocals rest
  end.

(** The text after the last [':'] of [cur ++ s], where [cur] has none. *)
Fixpoint finalSegment_from (s cur : string) : string :=
  match s with
  | EmptyString => cur
  | String c s' =>
      if Ascii.eqb c ":"%char then finalSegment_from s' EmptyString
      else finalSegment_from s' (cur ++ String c EmptyString)
  end.

(** The final colon-separated segment of [s]. *)
Definition finalSegment (s : string) : string := finalSegment_from s EmptyString.

(** [c] occurs in [s]. *)
Definition occurs (c : ascii) (s : string) : Prop := In c (list_ascii_of_string s).

(** [k] is what follows the last [':'] of [s], or all of [s] if it has none. *)
Definition isFinalSegment (k s : string) : Prop :=
  ~ occurs ":"%char k /\
  exists p, s = (p ++ k)%string /\ (p = EmptyString \/ exists q, p = (q ++ ":")%string).

Definition orEmpty (o : option string) : string :=
  match o with
  | Some s => s
  | None => EmptyString
  end.

(** The value of the last attribute whose local name is [name]. *)
Fixpoint lookupLast (name : string) (attrs : list Attr) : option string :=
  match attrs with
  | [] => None
  | attr :: rest =>
      match lookupLast name rest with
      | Some v => Some v
      | None =>
          if String.eqb (Local (Attr_Name attr)) name then Some (Attr_Value attr)
          else None
      end
  end.

(** The child elements with local name [tag], in document order. *)
Fixpoint elemsNamed (tag : string) (cs : list Node) : list Elem :=
  match cs with
  | [] => []
  | NElem el :: rest =>
      if String.eqb (local el) tag then el :: elemsNamed tag rest
      else elemsNamed tag rest
  | _ :: rest => elemsNamed tag rest
  end.

(** The child element names that the fields of [ComplexType] claim:
    [annotation>documentation], [all>element], [complexContent], [sequence]. *)
Definition ComplexType_claims (tag : string) : bool :=
  existsb (String.eqb tag) ["annotation"; "all"; "complexContent"; "sequence"].

(** The first element of a document, its root. *)
Fixpoint firstElement (doc : list Node) : option Elem :=
  match doc with
  | [] => None
  | NElem el :: _ => Some el
  | _ :: doc' => firstElement doc'
  end.

(** The structs on the way from the root to a [RestrictionAttr]. *)
Inductive StructType : Type :=
| TDefinitions | TSchema | TSimpleType | TRestriction | TComplexType
| TComplexContent | TExtension | TSequence | TElement.

(** Their fields that lead on to such a struct: the path of element names in
    the tag of the field, and the struct the field holds. *)
Definition structFields (t : StructType) : list (list string * StructType) :=
  match t with
  | TDefinitions => [(["types"; "schema"], TSchema)]
  | TSchema => [(["simpleType"], TSimpleType); (["complexType"], TComplexType);
                (["element"], TElement)]
  | TSimpleType => [(["restriction"], TRestriction)]
  | TRestriction => []
  | TComplexType => [(["all"; "element"], TElement);
                     (["complexContent"], TComplexContent);
                     (["sequence"], TSequence)]
  | TComplexContent => [(["extension"], TExtension); (["restriction"], TRestriction)]
  | TExtension => [(["sequence"], TSequence)]
  | TSequence => [(["complexType"], TComplexType); (["element"], TElement)]
  | TElement => [(["complexType"], TComplexType)]
  end.

(** [follows path parent el]: [el] is found below [parent] along the element
    names of [path]. *)
Inductive follows : list string -> Elem -> Elem -> Prop :=
| follows_last (tag : string) (parent el : Elem) :
    In (NElem el) (children parent) -> local el = tag ->
    follows [tag] parent el
| follows_step (tag : string) (path : list string) (parent mid el : Elem) :
    In (NElem mid) (children parent) -> local mid = tag ->
    follows path mid el ->
    follows (tag :: path) parent el.

(** [handsOver t el target]: decoding [el] as the struct [t] leads, field by
    field, to an [attribute] child of a [restriction], the element [target]
    on which [RestrictionAttr.UnmarshalXML] is called. *)
Inductive handsOver : StructType -> Elem -> Elem -> Prop :=
| hands_attribute (r target : Elem) :
    follows ["attribute"] r target ->
    handsOver TRestriction r target
| hands_field (t t' : StructType) (path : list string) (el mid target : Elem) :
    In (path, t') (structFields t) ->
    follows path el mid ->
    handsOver t' mid target ->
    handsOver t el target.

(** [P] holds of a node if the node is an element of which [P] holds, or
    no element at all. *)
Definition onElem (P : Elem -> Prop) (c : Node) : Prop :=
  match c with
  | NElem el => P el
  | _ => True
  end.

(** What one round of the loop over the children of a [sequence] appends. *)
Definition Sequence_grows {strconv : Strconv} (cs : list Node) (v v' : Sequence) : Prop :=
  exists cts els anys,
    v' = mkSequence (Sequence_XMLName v) (Sequence_ComplexTypes v ++ cts)
                    (Sequence_Elements v ++ els) (Sequence_Any v ++ anys)
    /\ Forall2 (fun el x => unmarshalComplexType ComplexType_zero el = Ok x)
               (elemsNamed "complexType" cs) cts
    /\ Forall2 (fun el x => unmarshalElement Element_zero el = Ok x)
               (elemsNamed "element" cs) els
    /\ Forall2 (fun el x => unmarshalAnyElement AnyElement_zero el = Ok x)
               (elemsNamed "any" cs) anys.

(** The decoder of each struct on the way fails on [el] whatever value it
    decodes into. *)
Definition failsAs {strconv : Strconv} (t : StructType) (el : Elem) : Prop :=
  match t with
  | TDefinitions => forall v, is_err (unmarshalDefinitions v el)
  | TSchema => forall v, is_err (unmarshalSchema v el)
  | TSimpleType => forall v, is_err (unmarshalSimpleType v el)
  | TRestriction => forall v, is_err (unmarshalRestriction v el)
  | TComplexType => forall v, is_err (unmarshalComplexType v el)
  | TComplexContent => forall v, is_err (unmarshalComplexContent v el)
  | TExtension => forall v, is_err (unmarshalExtension v el)
  | TSequence => forall v, is_err (unmarshalSequence v el)
  | TElement => forall v, is_err (unmarshalElement v el)
  end.

(** What the decoders look at in an attribute: its local name and value. *)
Definition localValue (a : Attr) : string * string :=
  (Local (Attr_Name a), Attr_Value a).

(** The last entry of a list, if any. *)
Fixpoint lastOpt {A : Type} (l : list A) : option A :=
  match l with
  | [] => None
  | x :: l' =>
      match lastOpt l' with
      | Some y => Some y
      | None => Some x
      end
  end.

(** The elements among the children of an element, in document order. *)
Definition childElems (el : Elem) : list Elem :=
  flat_map (fun c => match c with NElem e => [e] | _ => [] end) (children el).

(** The attribute names that the fields of [Element] bind: [name], [ref],
    [type], [minOccurs], [maxOccurs], [nillable]. *)
Definition Element_binds (name : string) : bool :=
  existsb (String.eqb name)
          ["name"; "ref"; "type"; "minOccurs"; "maxOccurs"; "nillable"].

(** The child element names that the fields of [Restriction] claim:
    [enumeration], [attribute]. *)
Definition Restriction_claims (tag : string) : bool :=
  existsb (String.eqb tag) ["enumeration"; "attribute"].

(** The child element names that the fields of [Definitions] claim:
    [service], [import], [types>schema], [message], [portType], [binding]. *)
Definition Definitions_claims (tag : string) : bool :=
  existsb (String.eqb tag)
          ["service"; "import"; "types"; "message"; "portType"; "binding"].

(** A decoder stops at read errors: it fails on every element that holds
    one. *)
Definition stops {T : Type} (D : T -> Elem -> result T) : Prop :=
  forall el, firstErr el <> None -> forall v, is_err (D v el).

(** The decoders of the schema type graph all fail on [el] if it holds a
    read error. *)
Definition schemaStops {strconv : Strconv} (el : Elem) : Prop :=
  firstErr el <> None ->
  (forall v, is_err (unmarshalComplexType v el))
  /\ (forall v, is_err (unmarshalComplexContent v el))
  /\ (forall v, is_err (unmarshalExtension v el))
  /\ (forall v, is_err (unmarshalSequence v el))
  /\ (forall v, is_err (unmarshalElement v el)).

(** The elements named [tag] below the children named [parent], in document
    order: where a field tagged ["parent>tag"] finds its elements. *)
Definition elemsBelow (parent tag : string) (cs : list Node) : list Elem :=
  flat_map (fun p => elemsNamed tag (children p)) (elemsNamed parent cs).

(** The character data directly among the nodes [cs], joined. *)
Fixpoint text (cs : list Node) : string :=
  match cs with
  | [] => EmptyString
  | NCharData s :: rest => (s ++ text rest)%string
  | _ :: rest => text rest
  end.

(** *** Inputs of the examples *)

Definition attr (name value : string) : Attr := mkAttr (mkName "" name) value.

Definition elem (tag : string) (attrs : list Attr) (cs : list Node) : Elem :=
  mkElem (mkStart (mkName "" tag) attrs) cs.

(** [<attribute ref="tns:arrayType" arrayType="xsd:string[]">
     <annotation>array</annotation></attribute>] *)
Definition attribute_arrayType : Elem :=
  elem "attribute" [attr "ref" "tns:arrayType"; attr "arrayType" "xsd:string[]"]
       [NElem (elem "annotation" [] [NCharData "array"])].

(** [<attribute ref="tns:arrayType"/>] *)
Definition attribute_no_value : Elem :=
  elem "attribute" [attr "ref" "tns:arrayType"] [].

(** [<attribute ref="tns:"/>] *)
Definition attribute_empty_key : Elem :=
  elem "attribute" [attr "ref" "tns:"] [].

(** [<attribute name="arrayType"/>] *)
Definition attribute_no_ref : Elem :=
  elem "attribute" [attr "name" "arrayType"] [].

(** [<sequence><element name="a"/><any/><element name="b"/></sequence>] *)
Definition sequence_a_any_b : Elem :=
  elem "sequence" []
       [NElem (elem "element" [attr "name" "a"] []);
        NElem (elem "any" [] []);
        NElem (elem "element" [attr "name" "b"] [])].

(** [<sequence><element name="a"/><element name="b"/><any/></sequence>] *)
Definition sequence_a_b_any : Elem :=
  elem "sequence" []
       [NElem (elem "element" [attr "name" "a"] []);
        NElem (elem "element" [attr "name" "b"] []);
        NElem (elem "any" [] [])].

(** [<element name="item" minOccurs="0" maxOccurs="unbounded"/>] *)
Definition element_unbounded : Elem :=
  elem "element" [attr "name" "item"; attr "minOccurs" "0";
                  attr "maxOccurs" "unbounded"] [].

(** [<element name="item" maxOccurs="5"/>] *)
Definition element_five : Elem :=
  elem "element" [attr "name" "item"; attr "maxOccurs" "5"] [].

(** [<anyAttribute namespace="##other"><x/></anyAttribute>], a child that
    [ComplexType] has no field for. *)
Definition anyAttribute : Elem :=
  elem "anyAttribute" [attr "namespace" "##other"] [NElem (elem "x" [] [])].

(** A document whose schema has a [restriction] with an [attribute] that
    lacks [ref]:
    [<definitions name="svc"><types><schema><simpleType name="T">
     <restriction base="xsd:string"><attribute name="arrayType"/></restriction>
     </simpleType></schema></types></definitions>] *)
Definition restriction_no_ref : Elem :=
  elem "restriction" [attr "base" "xsd:string"] [NElem attribute_no_ref].

Definition simpleType_no_ref : Elem :=
  elem "simpleType" [attr "name" "T"] [NElem restriction_no_ref].

Definition schema_no_ref : Elem := elem "schema" [] [NElem simpleType_no_ref].

Definition types_no_ref : Elem := elem "types" [] [NElem schema_no_ref].

Definition definitions_no_ref : Elem :=
  elem "definitions" [attr "name" "svc"] [NElem types_no_ref].

Definition document_no_ref : list Node := [NOther; NElem definitions_no_ref].

(** [<definitions name="svc"><message name="m">
     <part name="p" type="xsd:int"/></message></definitions>] *)
Definition document_message : list Node :=
  [NOther;
   NElem (elem "definitions" [attr "name" "svc"]
            [NElem (elem "message" [attr "name" "m"]
                      [NElem (elem "part" [attr "name" "p"; attr "type" "xsd:int"] [])])])].

(** [<attribute soapenc:ref="tns:arrayType" wsdl:arrayType="xsd:string[]">],
    the attributes in their namespaces. *)
Definition attribute_arrayType_qualified : StartElement :=
  mkStart (mkName "" "attribute")
          [mkAttr (mkName "http://schemas.xmlsoap.org/soap/encoding/" "ref")
                  "tns:arrayType";
           mkAttr (mkName "http://schemas.xmlsoap.org/wsdl/" "arrayType")
                  "xsd:string[]"].

(** [<attribute ref="tns:arrayType">x], cut off before the end element. *)
Definition attribute_truncated : Elem :=
  elem "attribute" [attr "ref" "tns:arrayType"]
       [NCharData "x"; NErr (SyntaxError "unexpected EOF")].

(** [<attribute ref="arrayType" arrayType="xsd:int[]"/>] *)
Definition attribute_unprefixed : Elem :=
  elem "attribute" [attr "ref" "arrayType"; attr "arrayType" "xsd:int[]"] [].

(** [<restriction base="xsd:string"><enumeration value="red"/>
     <pattern value="[a-z]*"/><enumeration value="green"/></restriction>] *)
Definition pattern_facet : Elem := elem "pattern" [attr "value" "[a-z]*"] [].

Definition restriction_colors : Elem :=
  elem "restriction" [attr "base" "xsd:string"]
       [NElem (elem "enumeration" [attr "value" "red"] []);
        NElem pattern_facet;
        NElem (elem "enumeration" [attr "value" "green"] [])].

(** [<restriction><attribute ref="tns:arrayType" arrayType="xsd:string[]">...
     </attribute><attribute ref="tns:other"/></restriction>] *)
Definition attribute_other : Elem := elem "attribute" [attr "ref" "tns:other"] [].

Definition restriction_two_attributes : Elem :=
  elem "restriction" [] [NElem attribute_arrayType; NElem attribute_other].

(** [<message name="req"><part name="a" type="xsd:int"/>
     <part name="b" element="tns:B"/></message>] *)
Definition message_two_parts : Elem :=
  elem "message" [attr "name" "req"]
       [NElem (elem "part" [attr "name" "a"; attr "type" "xsd:int"] []);
        NCharData " ";
        NElem (elem "part" [attr "name" "b"; attr "element" "tns:B"] [])].

(** [<schema><element name="e1"/><complexType name="c1"/>
     <element name="e2"/><simpleType name="s1"/></schema>] *)
Definition schema_mixed : Elem :=
  elem "schema" []
       [NElem (elem "element" [attr "name" "e1"] []);
        NElem (elem "complexType" [attr "name" "c1"] []);
        NElem (elem "element" [attr "name" "e2"] []);
        NElem (elem "simpleType" [attr "name" "s1"] [])].

(** [<schema><complexType name="c2"/></schema>] *)
Definition schema_second : Elem :=
  elem "schema" [] [NElem (elem "complexType" [attr "name" "c2"] [])].

(** [<complexType>] with the two sequences above as children. *)
Definition complexType_two_sequences : Elem :=
  elem "complexType" [] [NElem sequence_a_any_b; NElem sequence_a_b_any].

(** [<portType name="P1"><operation name="f"/></portType>] and
    [<portType><operation name="g"><input message="tns:gIn"/>
     <output message="tns:gOut"/></operation></portType>] *)
Definition portType_first : Elem :=
  elem "portType" [attr "name" "P1"] [NElem (elem "operation" [attr "name" "f"] [])].

Definition input_g : Elem := elem "input" [attr "message" "tns:gIn"] [].

Definition output_g : Elem := elem "output" [attr "message" "tns:gOut"] [].

Definition operation_g : Elem :=
  elem "operation" [attr "name" "g"] [NElem input_g; NElem output_g].

Definition portType_second : Elem := elem "portType" [] [NElem operation_g].

(** [<service><documentation>The <b>stock</b> service</documentation>
     <port name="p" binding="tns:b"/></service>] *)
Definition service_documented : Elem :=
  elem "service" []
       [NElem (elem "documentation" []
                 [NCharData "The "; NElem (elem "b" [] [NCharData "stock"]);
                  NCharData " service"]);
        NElem (elem "port" [attr "name" "p"; attr "binding" "tns:b"] [])].

(** A root with namespace declarations, a [documentation], two [types]
    with a [schema] each and two [portType]s. *)
Definition root_documentation : Elem :=
  elem "documentation" [] [NCharData "about"].

Definition definitions_full : Elem :=
  mkElem (mkStart (mkName "http://schemas.xmlsoap.org/wsdl/" "definitions")
            [attr "name" "svc";
             attr "targetNamespace" "urn:svc";
             mkAttr (mkName "xmlns" "SOAP-ENV")
                    "http://schemas.xmlsoap.org/soap/envelope/"])
         [NElem (elem "types" [] [NElem schema_mixed]);
          NElem (elem "types" [] [NElem schema_second]);
          NElem (elem "message" [attr "name" "req"] []);
          NElem portType_first;
          NElem portType_second].

(** [<extension base="tns:Base"><attribute name="id"/></extension>] *)
Definition extension_start : StartElement :=
  mkStart (mkName "" "extension") [attr "base" "tns:Base"].

(** A root whose read error lies in content that no field claims. *)
Definition definitions_truncated : Elem :=
  elem "definitions" []
       [NElem (elem "documentation" []
                 [NElem (elem "p" [] [NErr (SyntaxError "unexpected EOF")])])].


(** What the decoders return on these inputs, computed once. *)
Definition decoded_unbounded : Element :=
  Eval vm_compute in
    match unmarshalElement Element_zero element_unbounded with
    | Ok e => e
    | Err _ => Element_zero
    end.

Definition decoded_five : Element :=
  Eval vm_compute in
    match unmarshalElement Element_zero element_five with
    | Ok e => e
    | Err _ => Element_zero
    end.

Definition decoded_a_any_b : Sequence :=
  Eval vm_compute in
    match unmarshalSequence Sequence_zero sequence_a_any_b with
    | Ok s => s
    | Err _ => Sequence_zero
    end.

Definition decoded_message : Definitions :=
  Eval vm_compute in
    match Unmarshal document_message with
    | Ok d => d
    | Err _ => Definitions_zero
    end.

Definition decoded_colors : Restriction :=
  Eval vm_compute in
    match unmarshalRestriction Restriction_zero restriction_colors with
    | Ok r => r
    | Err _ => Restriction_zero
    end.

Definition decoded_two_attributes : Restriction :=
  Eval vm_compute in
    match unmarshalRestriction Restriction_zero restriction_two_attributes with
    | Ok r => r
    | Err _ => Restriction_zero
    end.

Definition decoded_two_parts : Message :=
  Eval vm_compute in
    match unmarshalMessage Message_zero message_two_parts with
    | Ok m => m
    | Err _ => Message_zero
    end.

Definition decoded_schema_mixed : Schema :=
  Eval vm_compute in
    match unmarshalSchema Schema_zero schema_mixed with
    | Ok s => s
    | Err _ => Schema_zero
    end.

Definition decoded_two_sequences : ComplexType :=
  Eval vm_compute in
    match unmarshalComplexType ComplexType_zero complexType_two_sequences with
    | Ok c => c
    | Err _ => ComplexType_zero
    end.

Definition decoded_a_any_b_twice : Sequence :=
  Eval vm_compute in
    match unmarshalSequence decoded_a_any_b sequence_a_b_any with
    | Ok s => s
    | Err _ => Sequence_zero
    end.

Definition decoded_portType_first : PortType :=
  Eval vm_compute in
    match unmarshalPortType PortType_zero portType_first with
    | Ok p => p
    | Err _ => PortType_zero
    end.

Definition decoded_portType_both : PortType :=
  Eval vm_compute in
    match unmarshalPortType decoded_portType_first portType_second with
    | Ok p => p
    | Err _ => PortType_zero
    end.

Definition decoded_operation_g : Operation :=
  Eval vm_compute in
    match unmarshalOperation Operation_zero operation_g with
    | Ok o => o
    | Err _ => Operation_zero
    end.

Definition decoded_service : Service :=
  Eval vm_compute in
    match unmarshalService Service_zero service_documented with
    | Ok s => s
    | Err _ => Service_zero
    end.

Definition decoded_full : Definitions :=
  Eval vm_compute in
    match unmarshalDefinitions Definitions_zero definitions_full with
    | Ok d => d
    | Err _ => Definitions_zero
    end.

(** The three kinds of children of a [sequence]; an element is told by the
    value of its [name] attribute. *)
Inductive ChildKind : Type :=
| NestedComplexType
| NamedElement (name : string)
| Wildcard.

(** The children of a [sequence] element that the model has a field for, as
    the source declares them. *)
Fixpoint sourceOrder (cs : list Node) : list ChildKind :=
  match cs with
  | [] => []
  | NElem el :: rest =>
      if String.eqb (local el) "complexType" then NestedComplexType :: sourceOrder rest
      else if String.eqb (local el) "element" then
        NamedElement (orEmpty (lookupLast "name" (Start_Attr (start el))))
        :: sourceOrder rest
      else if String.eqb (local el) "any" then Wildcard :: sourceOrder rest
      else sourceOrder rest
  | _ :: rest => sourceOrder rest
  end.

(** ** Strings and [strings.Split] *)

Lemma append_nil_r (s : string) : (s ++ "")%string = s.
Proof. induction s as [|c s IH]; simpl; [reflexivity | now rewrite IH]. Qed.

Lemma append_assoc (s t u : string) : ((s ++ t) ++ u)%string = (s ++ t ++ u)%string.
Proof. induction s as [|c s IH]; simpl; [reflexivity | now rewrite IH]. Qed.

Lemma length_zero_iff (s : string) : Nat.eqb (String.length s) 0 = true <-> s = "".
Proof. destruct s; simpl; split; intro H; try reflexivity; discriminate. Qed.

Lemma occurs_append (c : ascii) (s t : string) :
  occurs c (s ++ t) <-> occurs c s \/ occurs c t.
Proof.
  unfold occurs. induction s as [|a s IH]; simpl.
  - tauto.
  - rewrite IH. tauto.
Qed.

Lemma Split_from_nonempty (sep s cur : string) (skip : nat) :
  Split_from sep s cur skip <> [].
Proof.
  revert cur skip. induction s as [|c s IH]; intros cur skip; cbn [Split_from].
  - discriminate.
  - destruct skip as [|k]; [|apply IH].
    destruct (HasPrefix (String c s) sep); [discriminate | apply IH].
Qed.

(** [Split] never returns an empty slice: the index [len(split)-1] of line 87
    is always in range. *)
Lemma Split_nonempty (s sep : string) : (0 < List.length (Split s sep))%nat.
Proof.
  unfold Split. pose proof (Split_from_nonempty sep s "" 0) as H.
  destruct (Split_from sep s "" 0); [congruence | simpl; lia].
Qed.

Lemma nth_pred_length_last {A : Type} (l : list A) (d : A) :
  nth (List.length l - 1) l d = last l d.
Proof.
  induction l as [|x l IH]; [reflexivity|].
  destruct l as [|y l]; [reflexivity|].
  simpl in *. rewrite <- IH. now rewrite Nat.sub_0_r.
Qed.

Lemma last_cons_nonempty {A : Type} (x d : A) (l : list A) :
  l <> [] -> last (x :: l) d = last l d.
Proof. destruct l; [congruence | reflexivity]. Qed.

Lemma HasPrefix_colon (c : ascii) (s : string) :
  HasPrefix (String c s) ":" = Ascii.eqb c ":"%char.
Proof.
  cbn [HasPrefix]. rewrite Ascii.eqb_sym.
  destruct s; cbn [HasPrefix]; apply andb_true_r.
Qed.

Lemma last_Split_from_colon (s cur : string) :
  last (Split_from ":" s cur 0) "" = finalSegment_from s cur.
Proof.
  revert cur. induction s as [|c s IH]; intro cur; [reflexivity|].
  cbn [Split_from finalSegment_from]. rewrite HasPrefix_colon.
  destruct (Ascii.eqb c ":").
  - cbn [String.length Nat.sub].
    rewrite last_cons_nonempty by apply Split_from_nonempty.
    apply IH.
  - apply IH.
Qed.

(** Line 87 computes the final colon-separated segment of the [ref] value. *)
Lemma key_of_Split (r : string) :
  nth (List.length (Split r ":") - 1) (Split r ":") "" = finalSegment r.
Proof. rewrite nth_pred_length_last. apply last_Split_from_colon. Qed.

Lemma finalSegment_from_no_colon (s cur : string) :
  ~ occurs ":"%char cur -> ~ occurs ":"%char (finalSegment_from s cur).
Proof.
  revert cur. induction s as [|c s IH]; intros cur Hcur; simpl; [exact Hcur|].
  destruct (Ascii.eqb_spec c ":"%char) as [->|Hc].
  - apply IH. intros [].
  - apply IH. rewrite occurs_append. intros [H|H]; [auto|].
    destruct H as [H|[]]. congruence.
Qed.

Lemma finalSegment_from_suffix (s cur : string) :
  exists p, (cur ++ s)%string = (p ++ finalSegment_from s cur)%string /\
            (p = "" \/ exists q, p = (q ++ ":")%string).
Proof.
  revert cur. induction s as [|c s IH]; intro cur; simpl.
  - exists "". rewrite append_nil_r. auto.
  - destruct (Ascii.eqb_spec c ":"%char) as [->|Hc].
    + destruct (IH "") as (p & Hp & Hend). simpl in Hp.
      exists (cur ++ ":" ++ p)%string. split.
      * rewrite append_assoc. simpl. now rewrite <- Hp.
      * right. destruct Hend as [->|(q & ->)].
        -- exists cur. now rewrite append_nil_r.
        -- exists (cur ++ ":" ++ q)%string. now rewrite !append_assoc.
    + destruct (IH (cur ++ String c "")%string) as (p & Hp & Hend).
      exists p. split; [|exact Hend].
      rewrite <- Hp, append_assoc. reflexivity.
Qed.

Lemma finalSegment_isFinalSegment (s : string) : isFinalSegment (finalSegment s) s.
Proof.
  split.
  - apply finalSegment_from_no_colon. intros [].
  - apply (finalSegment_from_suffix s "").
Qed.

(** ** Attribute sets *)

Lemma lookupLocal_lacks (name : string) (attrs : list Attr) :
  lacks attrs name = true <-> lookupLocal name attrs = None.
Proof.
  unfold lacks. induction attrs as [|a attrs IH]; simpl; [tauto|].
  destruct (String.eqb (Local (Attr_Name a)) name); simpl; [|exact IH].
  split; discriminate.
Qed.

Lemma lookupLocal_carries (name value : string) (attrs : list Attr) :
  distinctLocals attrs = true ->
  carries attrs name value = true ->
  lookupLocal name attrs = Some value.
Proof.
  unfold carries. induction attrs as [|a attrs IH]; simpl; [discriminate|].
  intros D C. apply andb_prop in D as [Da D].
  destruct (String.eqb_spec (Local (Attr_Name a)) name) as [E|E]; simpl in C.
  - destruct (String.eqb_spec (Attr_Value a) value) as [->|V]; [reflexivity|].
    simpl in C. exfalso. rewrite E in Da.
    apply lookupLocal_lacks in Da. rewrite (IH D C) in Da. discriminate.
  - now apply IH.
Qed.

Lemma lookupLast_lacks (name : string) (attrs : list Attr) :
  lacks attrs name = true -> lookupLast name attrs = None.
Proof.
  unfold lacks. induction attrs as [|a attrs IH]; simpl; [reflexivity|].
  destruct (String.eqb (Local (Attr_Name a)) name); simpl; [discriminate|].
  intro H. now rewrite (IH H).
Qed.

Lemma lookupLast_carries (name value : string) (attrs : list Attr) :
  distinctLocals attrs = true ->
  carries attrs name value = true ->
  lookupLast name attrs = Some value.
Proof.
  unfold carries. induction attrs as [|a attrs IH]; simpl; [discriminate|].
  intros D C. apply andb_prop in D as [Da D].
  apply orb_prop in C as [C|C].
  - apply andb_prop in C as [Cn Cv].
    apply String.eqb_eq in Cn, Cv. subst name value.
    rewrite (lookupLast_lacks _ _ Da), String.eqb_refl. reflexivity.
  - now rewrite (IH D C).
Qed.

(** ** The two loops of [UnmarshalXML] *)

Lemma findRef_lookup (attrs : list Attr) (a : RestrictionAttr) :
  findRef attrs a =
  match lookupLocal "ref" attrs with
  | Some r => mkRestrictionAttr (RestrictionAttr_XMLName a) r (finalSegment r)
                                (RestrictionAttr_Value a)
  | None => a
  end.
Proof.
  induction attrs as [|attr rest IH]; simpl; [reflexivity|].
  destruct (String.eqb (Local (Attr_Name attr)) "ref"); [|exact IH].
  now rewrite key_of_Split.
Qed.

Lemma findValue_lookup (attrs : list Attr) (a : RestrictionAttr) :
  findValue attrs a =
  match lookupLocal (RestrictionAttr_Key a) attrs with
  | Some v => mkRestrictionAttr (RestrictionAttr_XMLName a) (RestrictionAttr_Ref a)
                                (RestrictionAttr_Key a) v
  | None => a
  end.
Proof.
  induction attrs as [|attr rest IH]; simpl; [reflexivity|].
  destruct (String.eqb (Local (Attr_Name attr)) (RestrictionAttr_Key a)); [reflexivity|].
  exact IH.
Qed.

(** [UnmarshalXML], loop by loop: without a [ref], or with a [ref] whose
    final segment is empty, it returns at line 94 and leaves the decoder
    alone; otherwise it looks the key up and skips. *)
Lemma UnmarshalXML_eq (a : RestrictionAttr) (d : Decoder) (st : StartElement) :
  UnmarshalXML a d st =
  match lookupLocal "ref" (Start_Attr st) with
  | None => (Some errNoRef, mkRestrictionAttr (Start_Name st) "" "" "", d)
  | Some r =>
      if String.eqb (finalSegment r) ""
      then (Some errNoRef, mkRestrictionAttr (Start_Name st) r "" "", d)
      else (fst (Skip d),
            mkRestrictionAttr (Start_Name st) r (finalSegment r)
              (orEmpty (lookupLocal (finalSegment r) (Start_Attr st))),
            snd (Skip d))
  end.
Proof.
  unfold UnmarshalXML. rewrite findRef_lookup.
  destruct (lookupLocal "ref" (Start_Attr st)) as [r|]; cbn -[Skip]; [|reflexivity].
  destruct (String.eqb_spec (finalSegment r) "") as [E|E].
  - rewrite E. reflexivity.
  - destruct (Nat.eqb (String.length (finalSegment r)) 0) eqn:L.
    + apply length_zero_iff in L. contradiction.
    + rewrite findValue_lookup. cbn -[Skip].
      destruct (Skip d) as [err d'].
      destruct (lookupLocal (finalSegment r) (Start_Attr st)); reflexivity.
Qed.

(** ** Elements and their tokens *)

(** Induction on elements: a property holds of every element if it holds of
    an element whenever it holds of the elements among its children. *)
Lemma Elem_induction (P : Elem -> Prop) :
  (forall st cs, Forall (onElem P) cs -> P (mkElem st cs)) ->
  forall el, P el.
Proof.
  intro step. fix IH 1. intros [st cs]. apply step.
  induction cs as [|c cs IHcs]; constructor; [|exact IHcs].
  destruct c as [el'| | |]; cbn [onElem]; [apply IH | exact I | exact I | exact I].
Qed.

Lemma content_eq (st : StartElement) (cs : list Node) :
  content (mkElem st cs) = flat_map tokens cs ++ [Ok (TEnd (Start_Name st))].
Proof. reflexivity. Qed.

Lemma firstErr_eq (st : StartElement) (cs : list Node) :
  firstErr (mkElem st cs) = firstSome firstErrNode cs.
Proof. reflexivity. Qed.

(** Skipping from inside an element without read errors ends just after its
    end element, at whatever depth the skipping started. *)
Lemma Skip_from_content (el : Elem) :
  firstErr el = None ->
  forall (n : nat) (rest : Decoder),
    Skip_from n (content el ++ rest) =
    match n with
    | O => (None, rest)
    | S k => Skip_from k rest
    end.
Proof.
  induction el as [st cs IH] using Elem_induction.
  rewrite firstErr_eq, content_eq. intros Hok n rest.
  rewrite <- app_assoc. revert Hok n.
  induction IH as [|c cs Hc _ IHcs]; intros Hok n.
  - reflexivity.
  - cbn [firstSome] in Hok. destruct (firstErrNode c) eqn:Ec; [discriminate|].
    cbn [flat_map]. rewrite <- app_assoc.
    destruct c as [el'| s | |e]; cbn [tokens app Skip_from].
    + rewrite (Hc Ec (S n)). now apply IHcs.
    + now apply IHcs.
    + now apply IHcs.
    + discriminate.
Qed.

(** Skipping from inside an element with a read error returns that error. *)
Lemma Skip_from_content_err (el : Elem) (e : error) :
  firstErr el = Some e ->
  forall (n : nat) (rest : Decoder),
    fst (Skip_from n (content el ++ rest)) = Some e.
Proof.
  induction el as [st cs IH] using Elem_induction.
  rewrite firstErr_eq, content_eq. intros Hok n rest.
  rewrite <- app_assoc. revert Hok n.
  induction IH as [|c cs Hc _ IHcs]; intros Hok n.
  - discriminate.
  - cbn [firstSome] in Hok. cbn [flat_map]. rewrite <- app_assoc.
    destruct c as [el'| s | |e']; cbn [tokens app Skip_from firstErrNode] in *.
    + destruct (firstErr el') as [e'|] eqn:Ec.
      * apply Hc. congruence.
      * rewrite (Skip_from_content el' Ec (S n)). now apply IHcs.
    + now apply IHcs.
    + now apply IHcs.
    + simpl. congruence.
Qed.

Lemma Skip_content (el : Elem) (rest : Decoder) :
  firstErr el = None -> Skip (content el ++ rest) = (None, rest).
Proof. intro H. exact (Skip_from_content el H 0 rest). Qed.

(** What [unmarshalInterface] makes of the method, case by case. *)
Lemma unmarshalInterface_eq (a : RestrictionAttr) (el : Elem) :
  unmarshalInterface a el =
  match lookupLocal "ref" (Start_Attr (start el)) with
  | None => Err errNoRef
  | Some r =>
      if String.eqb (finalSegment r) "" then Err errNoRef
      else
        match firstErr el with
        | Some e => Err e
        | None =>
            Ok (mkRestrictionAttr (Start_Name (start el)) r (finalSegment r)
                  (orEmpty (lookupLocal (finalSegment r) (Start_Attr (start el)))))
        end
  end.
Proof.
  unfold unmarshalInterface. rewrite UnmarshalXML_eq.
  destruct (lookupLocal "ref" (Start_Attr (start el))) as [r|]; [|reflexivity].
  destruct (String.eqb (finalSegment r) ""); [reflexivity|].
  destruct (firstErr el) as [e|] eqn:E.
  - pose proof (Skip_from_content_err el e E 0 []) as H.
    rewrite app_nil_r in H. fold (Skip (content el)) in H.
    destruct (Skip (content el)) as [err d']. simpl in H. subst err. reflexivity.
  - pose proof (Skip_content el [] E) as H. rewrite app_nil_r in H.
    rewrite H. reflexivity.
Qed.

Lemma finalSegment_from_no_colon_id (k cur : string) :
  ~ occurs ":"%char k -> finalSegment_from k cur = (cur ++ k)%string.
Proof.
  revert cur. induction k as [|c k IH]; intros cur Hk; simpl.
  - now rewrite append_nil_r.
  - destruct (Ascii.eqb_spec c ":"%char) as [->|Hc].
    + exfalso. apply Hk. now left.
    + rewrite IH.
      * now rewrite append_assoc.
      * intro H. apply Hk. now right.
Qed.

Lemma finalSegment_from_after_colon (q k cur : string) :
  finalSegment_from (q ++ ":" ++ k) cur = finalSegment_from k "".
Proof.
  revert cur. induction q as [|c q IH]; intro cur; simpl.
  - reflexivity.
  - destruct (Ascii.eqb c ":"); apply IH.
Qed.

(** [finalSegment] computes the only final segment there is. *)
Lemma isFinalSegment_unique (k s : string) :
  isFinalSegment k s -> k = finalSegment s.
Proof.
  intros (Hk & p & -> & [->|(q & ->)]); unfold finalSegment.
  - simpl. now rewrite finalSegment_from_no_colon_id.
  - rewrite append_assoc, finalSegment_from_after_colon.
    now rewrite finalSegment_from_no_colon_id.
Qed.

(** ** The reference-attribute resolver *)

(** C2 (reference resolution, success).  On an [attribute] element whose
    first attribute named [ref] has value [r] with a non-empty final
    colon-separated segment, and whose first attribute named by that segment
    has value [v], [UnmarshalXML] returns no error, leaves the decoder just
    after the element, and sets [Ref = r], [Key] = the final segment of [r],
    [Value = v].  In particular, an attribute set (no two attributes with the
    same local name) that contains [ref="tns:arrayType"] and
    [arrayType="xsd:string[]"] gives [Key = "arrayType"] and
    [Value = "xsd:string[]"]. *)
Theorem UnmarshalXML_resolves_reference :
  (forall (a : RestrictionAttr) (el : Elem) (rest : Decoder) (r v : string),
      lookupLocal "ref" (Start_Attr (start el)) = Some r ->
      finalSegment r <> "" ->
      lookupLocal (finalSegment r) (Start_Attr (start el)) = Some v ->
      firstErr el = None ->
      UnmarshalXML a (content el ++ rest) (start el) =
        (None, mkRestrictionAttr (Start_Name (start el)) r (finalSegment r) v, rest)
      /\ isFinalSegment (finalSegment r) r)
  /\
  (forall (a : RestrictionAttr) (el : Elem) (rest : Decoder),
      distinctLocals (Start_Attr (start el)) = true ->
      carries (Start_Attr (start el)) "ref" "tns:arrayType" = true ->
      carries (Start_Attr (start el)) "arrayType" "xsd:string[]" = true ->
      firstErr el = None ->
      UnmarshalXML a (content el ++ rest) (start el) =
        (None,
         mkRestrictionAttr (Start_Name (start el)) "tns:arrayType" "arrayType"
                           "xsd:string[]",
         rest)).
Proof.
  assert (G : forall a el rest r v,
             lookupLocal "ref" (Start_Attr (start el)) = Some r ->
             finalSegment r <> "" ->
             lookupLocal (finalSegment r) (Start_Attr (start el)) = Some v ->
             firstErr el = None ->
             UnmarshalXML a (content el ++ rest) (start el) =
             (None, mkRestrictionAttr (Start_Name (start el)) r (finalSegment r) v,
              rest)).
  { intros a el rest r v Hr Hk Hv Hok.
    rewrite UnmarshalXML_eq, Hr.
    destruct (String.eqb_spec (finalSegment r) ""); [contradiction|].
    rewrite Hv, (Skip_content el rest Hok). reflexivity. }
  split.
  - intros a el rest r v Hr Hk Hv Hok. split.
    + now apply G.
    + apply finalSegment_isFinalSegment.
  - intros a el rest D Hr Hv Hok.
    apply (lookupLocal_carries _ _ _ D) in Hr, Hv.
    apply (G a el rest "tns:arrayType" "xsd:string[]" Hr);
      [discriminate | exact Hv | exact Hok].
Qed.

(** C4 (reference resolution, missing value).  If no attribute of the
    element has the local name that [ref] resolves to, [UnmarshalXML] still
    returns no error, with that [Key] and an empty [Value]; in particular for
    an attribute set that contains [ref="tns:arrayType"] and no attribute of
    local name [arrayType]. *)
Theorem UnmarshalXML_tolerates_missing_value :
  (forall (a : RestrictionAttr) (el : Elem) (rest : Decoder) (r : string),
      lookupLocal "ref" (Start_Attr (start el)) = Some r ->
      finalSegment r <> "" ->
      lookupLocal (finalSegment r) (Start_Attr (start el)) = None ->
      firstErr el = None ->
      UnmarshalXML a (content el ++ rest) (start el) =
        (None, mkRestrictionAttr (Start_Name (start el)) r (finalSegment r) "", rest))
  /\
  (forall (a : RestrictionAttr) (el : Elem) (rest : Decoder),
      distinctLocals (Start_Attr (start el)) = true ->
      carries (Start_Attr (start el)) "ref" "tns:arrayType" = true ->
      lacks (Start_Attr (start el)) "arrayType" = true ->
      firstErr el = None ->
      UnmarshalXML a (content el ++ rest) (start el) =
        (None,
         mkRestrictionAttr (Start_Name (start el)) "tns:arrayType" "arrayType" "",
         rest)).
Proof.
  assert (G : forall a el rest r,
             lookupLocal "ref" (Start_Attr (start el)) = Some r ->
             finalSegment r <> "" ->
             lookupLocal (finalSegment r) (Start_Attr (start el)) = None ->
             firstErr el = None ->
             UnmarshalXML a (content el ++ rest) (start el) =
             (None, mkRestrictionAttr (Start_Name (start el)) r (finalSegment r) "",
              rest)).
  { intros a el rest r Hr Hk Hv Hok.
    rewrite UnmarshalXML_eq, Hr.
    destruct (String.eqb_spec (finalSegment r) ""); [contradiction|].
    rewrite Hv, (Skip_content el rest Hok). reflexivity. }
  split; [exact G|].
  intros a el rest D Hr Hv Hok.
  apply (lookupLocal_carries _ _ _ D) in Hr. apply lookupLocal_lacks in Hv.
  apply (G a el rest "tns:arrayType" Hr); [discriminate | exact Hv | exact Hok].
Qed.

(** C5 (the subtree is consumed).  Whenever [UnmarshalXML] derives a
    non-empty [Key], it reads the whole content of the element, end element
    included, whether or not the lookup of [Key] finds a value: the decoder
    is left at what follows the element, and the record it fills depends on
    the start element alone, so it is the one obtained for the same start
    element without any children. *)
Theorem UnmarshalXML_consumes_subtree :
  forall (a : RestrictionAttr) (el : Elem) (rest : Decoder) (r : string),
    lookupLocal "ref" (Start_Attr (start el)) = Some r ->
    finalSegment r <> "" ->
    firstErr el = None ->
    let a' := mkRestrictionAttr (Start_Name (start el)) r (finalSegment r)
                (orEmpty (lookupLocal (finalSegment r) (Start_Attr (start el)))) in
    UnmarshalXML a (content el ++ rest) (start el) = (None, a', rest)
    /\ unmarshalInterface a el = Ok a'
    /\ unmarshalInterface a (mkElem (start el) []) = Ok a'.
Proof.
  intros a el rest r Hr Hk Hok a'. subst a'. repeat split.
  - rewrite UnmarshalXML_eq, Hr.
    destruct (String.eqb_spec (finalSegment r) ""); [contradiction|].
    rewrite (Skip_content el rest Hok). reflexivity.
  - rewrite unmarshalInterface_eq, Hr, Hok.
    destruct (String.eqb_spec (finalSegment r) ""); [contradiction | reflexivity].
  - rewrite unmarshalInterface_eq. cbn [start]. rewrite Hr.
    destruct (String.eqb_spec (finalSegment r) ""); [contradiction | reflexivity].
Qed.

(** C9 (empty key).  When the first [ref] attribute is present but its
    value has an empty final colon-separated segment, as for [ref=""] and
    [ref="tns:"], [UnmarshalXML] returns the error of line 94 without
    touching the decoder, the very error it returns when there is no [ref]
    attribute at all. *)
Theorem UnmarshalXML_empty_key_fails :
  forall (a : RestrictionAttr) (d : Decoder) (st : StartElement) (r : string),
    lookupLocal "ref" (Start_Attr st) = Some r ->
    finalSegment r = "" ->
    UnmarshalXML a d st =
      (Some errNoRef, mkRestrictionAttr (Start_Name st) r "" "", d)
    /\ (forall (a0 : RestrictionAttr) (d0 : Decoder) (st0 : StartElement),
           lookupLocal "ref" (Start_Attr st0) = None ->
           fst (fst (UnmarshalXML a0 d0 st0)) = fst (fst (UnmarshalXML a d st)))
    /\ finalSegment "" = "" /\ finalSegment "tns:" = "".
Proof.
  intros a d st r Hr Hk.
  assert (E : UnmarshalXML a d st =
              (Some errNoRef, mkRestrictionAttr (Start_Name st) r "" "", d)).
  { rewrite UnmarshalXML_eq, Hr, Hk. reflexivity. }
  repeat split; [exact E|].
  intros a0 d0 st0 H0. rewrite E, UnmarshalXML_eq, H0. reflexivity.
Qed.

(** C10 (what a successful call leaves in the receiver).  If [UnmarshalXML]
    returns no error, then [Key] is not empty, contains no [':'], is the
    final colon-separated segment of [Ref] (so [Ref] ends with [Key]), and
    [Ref] is the value of the first attribute with local name [ref]. *)
Theorem UnmarshalXML_success_invariant :
  forall (a a' : RestrictionAttr) (d d' : Decoder) (st : StartElement),
    UnmarshalXML a d st = (None, a', d') ->
    RestrictionAttr_Key a' <> ""
    /\ ~ occurs ":"%char (RestrictionAttr_Key a')
    /\ isFinalSegment (RestrictionAttr_Key a') (RestrictionAttr_Ref a')
    /\ (exists p, RestrictionAttr_Ref a' = (p ++ RestrictionAttr_Key a')%string)
    /\ lookupLocal "ref" (Start_Attr st) = Some (RestrictionAttr_Ref a').
Proof.
  intros a a' d d' st H. rewrite UnmarshalXML_eq in H.
  destruct (lookupLocal "ref" (Start_Attr st)) as [r|]; [|discriminate].
  destruct (String.eqb_spec (finalSegment r) "") as [E|E]; [discriminate|].
  injection H as _ <- _. cbn.
  pose proof (finalSegment_isFinalSegment r) as F.
  repeat split; try assumption; try apply F.
  destruct F as (_ & p & Hp & _). now exists p.
Qed.

(** ** Loops *)

Lemma foldM_app {A B : Type} (f : A -> B -> result A) (l1 l2 : list B) (a : A) :
  foldM f (l1 ++ l2) a = (a' <- foldM f l1 a ;; foldM f l2 a').
Proof.
  revert a. induction l1 as [|x l1 IH]; intro a; simpl; [reflexivity|].
  destruct (f a x); [apply IH | reflexivity].
Qed.

(** What every round of a loop preserves, the loop preserves. *)
Lemma foldM_invariant {A B : Type} (f : A -> B -> result A) (P : A -> Prop) :
  (forall a x a', f a x = Ok a' -> P a -> P a') ->
  forall l a a', foldM f l a = Ok a' -> P a -> P a'.
Proof.
  intros Hf l. induction l as [|x l IH]; intros a a' H Ha; simpl in H.
  - now injection H as <-.
  - destruct (f a x) as [a1|e] eqn:E; [|discriminate]. eauto.
Qed.

(** A round that fails whatever it starts from makes the loop fail. *)
Lemma foldM_fails {A B : Type} (f : A -> B -> result A) (l : list B) (x : B) :
  In x l -> (forall a, is_err (f a x)) -> forall a, is_err (foldM f l a).
Proof.
  intros Hin Hx. induction l as [|y l IH]; intro a; [contradiction|].
  simpl. destruct (f a y) as [a1|e] eqn:E.
  - destruct Hin as [->|Hin]; [|now apply IH].
    destruct (Hx a) as [e He]. congruence.
  - now exists e.
Qed.

Lemma bind_is_err {A B : Type} (r : result A) (k : A -> result B) :
  is_err r -> is_err (x <- r ;; k x).
Proof. intros [e ->]. now exists e. Qed.

Lemma bind_Ok_inv {A B : Type} (r : result A) (k : A -> result B) (b : B) :
  (x <- r ;; k x) = Ok b -> exists a, r = Ok a /\ k a = Ok b.
Proof. destruct r as [a|e]; simpl; [eauto | discriminate]. Qed.

Section Properties.
Context {strconv : Strconv}.

(** *** The decoders of the schema type graph, unfolded once *)

Lemma unmarshalComplexType_eq (v : ComplexType) (el : Elem) :
  unmarshalComplexType v el =
  unmarshalStruct ComplexType_x ComplexType_attr
    (ComplexType_elem unmarshalElement unmarshalComplexContent unmarshalSequence)
    v el.
Proof. destruct el; reflexivity. Qed.

Lemma unmarshalComplexContent_eq (v : ComplexContent) (el : Elem) :
  unmarshalComplexContent v el =
  unmarshalStruct ComplexContent_x noAttr (ComplexContent_elem unmarshalExtension) v el.
Proof. destruct el; reflexivity. Qed.

Lemma unmarshalExtension_eq (v : Extension) (el : Elem) :
  unmarshalExtension v el =
  unmarshalStruct Extension_x Extension_attr (Extension_elem unmarshalSequence) v el.
Proof. destruct el; reflexivity. Qed.

Lemma unmarshalSequence_eq (v : Sequence) (el : Elem) :
  unmarshalSequence v el =
  unmarshalStruct Sequence_x noAttr
    (Sequence_elem unmarshalComplexType unmarshalElement) v el.
Proof. destruct el; reflexivity. Qed.

Lemma unmarshalElement_eq (v : Element) (el : Elem) :
  unmarshalElement v el =
  unmarshalStruct Element_x Element_attr (Element_elem unmarshalComplexType) v el.
Proof. destruct el; reflexivity. Qed.

(** The three stages of [unmarshalStruct], for a successful run. *)
Lemma unmarshalStruct_Ok_inv {T : Type} (x : XMLNameInfo T)
  (attr : T -> Attr -> result T) (elem : T -> Elem -> result T)
  (v v' : T) (st : StartElement) (cs : list Node) :
  unmarshalStruct x attr elem v (mkElem st cs) = Ok v' ->
  exists v1 v2,
    setXMLName x v st = Ok v1 /\
    foldM attr (Start_Attr st) v1 = Ok v2 /\
    foldM (child elem) cs v2 = Ok v'.
Proof.
  unfold unmarshalStruct. intro H.
  apply bind_Ok_inv in H as (v1 & H1 & H).
  apply bind_Ok_inv in H as (v2 & H2 & H).
  eauto.
Qed.

Lemma setXMLName_Ok_inv {T : Type} (want : string) (set : T -> Name -> T)
  (v v' : T) (st : StartElement) :
  setXMLName (Some (want, set)) v st = Ok v' -> v' = set v (Start_Name st).
Proof.
  unfold setXMLName.
  destruct (negb (String.eqb want "") && negb (String.eqb want (Local (Start_Name st))));
    [discriminate | congruence].
Qed.

(** *** Element.Max *)

Lemma Element_attr_Max (v v' : Element) (a : Attr) :
  Element_attr v a = Ok v' ->
  Element_Max v' =
  if String.eqb (Local (Attr_Name a)) "maxOccurs" then Attr_Value a else Element_Max v.
Proof.
  destruct v as [xn nm rf ty mn mx nl ct]. unfold Element_attr.
  remember (Local (Attr_Name a)) as n eqn:En. clear En.
  repeat match goal with
         | |- context [String.eqb n ?s] =>
             destruct (String.eqb_spec n s) as [->|?]; cbn [String.eqb Ascii.eqb Bool.eqb]
         end;
    intro H;
    lazymatch type of H with
    | bind _ _ = _ => apply bind_Ok_inv in H as (? & _ & H)
    | _ => idtac
    end;
    injection H as <-; reflexivity.
Qed.

Lemma foldM_Element_attr_Max (attrs : list Attr) (v v' : Element) :
  foldM Element_attr attrs v = Ok v' ->
  Element_Max v' =
  match lookupLast "maxOccurs" attrs with
  | Some m => m
  | None => Element_Max v
  end.
Proof.
  revert v. induction attrs as [|a attrs IH]; intros v H; simpl in H.
  - now injection H as <-.
  - destruct (Element_attr v a) as [v1|e] eqn:E; [|discriminate].
    rewrite (IH _ H). cbn [lookupLast].
    destruct (lookupLast "maxOccurs" attrs); [reflexivity|].
    rewrite (Element_attr_Max _ _ _ E).
    destruct (String.eqb (Local (Attr_Name a)) "maxOccurs"); reflexivity.
Qed.

Lemma skip_Ok_inv {T : Type} (v v' : T) (el : Elem) : skip v el = Ok v' -> v' = v.
Proof. unfold skip. destruct (firstErr el); [discriminate | congruence]. Qed.

Lemma Element_elem_Max (u : decoder ComplexType) (m : string) (v : Element)
  (c : Node) (v' : Element) :
  child (Element_elem u) v c = Ok v' -> Element_Max v = m -> Element_Max v' = m.
Proof.
  destruct c as [el| | |]; cbn [child]; intros H Hm; try congruence.
  destruct v as [xn nm rf ty mn mx nl ct]. unfold Element_elem in H.
  destruct (String.eqb (local el) "complexType").
  - apply bind_Ok_inv in H as (c & _ & H). now injection H as <-.
  - apply skip_Ok_inv in H. now subst.
Qed.

(** C6 (sentinel preservation).  The [Max] of a decoded [element] is the
    text of its [maxOccurs] attribute as it stands (of the last one, should
    several attributes have that local name; empty if there is none): no
    number is parsed from it.  So [maxOccurs="unbounded"] gives
    ["unbounded"] and [maxOccurs="5"] gives ["5"]. *)
Theorem Element_Max_verbatim :
  forall (el : Elem) (e : Element),
    unmarshalElement Element_zero el = Ok e ->
    Element_Max e = orEmpty (lookupLast "maxOccurs" (Start_Attr (start el)))
    /\ (forall m : string,
           distinctLocals (Start_Attr (start el)) = true ->
           carries (Start_Attr (start el)) "maxOccurs" m = true ->
           Element_Max e = m)
    /\ (carries (Start_Attr (start el)) "maxOccurs" "unbounded" = true ->
        distinctLocals (Start_Attr (start el)) = true ->
        Element_Max e = "unbounded")
    /\ (carries (Start_Attr (start el)) "maxOccurs" "5" = true ->
        distinctLocals (Start_Attr (start el)) = true ->
        Element_Max e = "5").
Proof.
  intros [st cs] e H. rewrite unmarshalElement_eq in H.
  apply unmarshalStruct_Ok_inv in H as (v1 & v2 & H1 & H2 & H3).
  assert (M : Element_Max e = orEmpty (lookupLast "maxOccurs" (Start_Attr st))).
  { apply (foldM_invariant _ (fun x => Element_Max x = _)
             (fun a x a' => Element_elem_Max _ _ a x a') _ _ _ H3).
    rewrite (foldM_Element_attr_Max _ _ _ H2).
    destruct (lookupLast "maxOccurs" (Start_Attr st)); [reflexivity|].
    apply setXMLName_Ok_inv in H1 as ->. reflexivity. }
  assert (G : forall m, distinctLocals (Start_Attr st) = true ->
                        carries (Start_Attr st) "maxOccurs" m = true ->
                        Element_Max e = m).
  { intros m D C. now rewrite M, (lookupLast_carries _ _ _ D C). }
  cbn [start]. repeat split; [exact M | exact G | |]; intros C D; now apply G.
Qed.

(** *** Sequence *)

Lemma foldM_noAttr {T : Type} (attrs : list Attr) (v : T) :
  foldM noAttr attrs v = Ok v.
Proof. induction attrs as [|a attrs IH]; simpl; [reflexivity | exact IH]. Qed.

Lemma elemsNamed_cons (tag : string) (c : Node) (cs : list Node) :
  elemsNamed tag (c :: cs) = elemsNamed tag [c] ++ elemsNamed tag cs.
Proof.
  destruct c as [el| | |]; cbn [elemsNamed]; try reflexivity.
  destruct (String.eqb (local el) tag); reflexivity.
Qed.

Lemma Sequence_grows_refl (v : Sequence) : Sequence_grows [] v v.
Proof.
  exists [], [], []. rewrite !app_nil_r. destruct v. repeat split; constructor.
Qed.

Lemma Sequence_child_grows (v v' : Sequence) (c : Node) :
  child (Sequence_elem unmarshalComplexType unmarshalElement) v c = Ok v' ->
  Sequence_grows [c] v v'.
Proof.
  destruct c as [el| | |]; cbn [child]; intro H;
    try (injection H as <-; apply Sequence_grows_refl); try discriminate.
  destruct v as [xn cts els anys]. unfold Sequence_elem in H.
  unfold Sequence_grows. cbn [elemsNamed Sequence_XMLName Sequence_ComplexTypes
                               Sequence_Elements Sequence_Any].
  remember (local el) as n eqn:En.
  destruct (String.eqb_spec n "complexType") as [->|N1].
  { apply bind_Ok_inv in H as (x & Hx & H). injection H as <-.
    exists [x], [], []. rewrite !app_nil_r. cbn. repeat split; repeat constructor.
    exact Hx. }
  destruct (String.eqb_spec n "element") as [->|N2].
  { apply bind_Ok_inv in H as (x & Hx & H). injection H as <-.
    exists [], [x], []. rewrite !app_nil_r. cbn. repeat split; repeat constructor.
    exact Hx. }
  destruct (String.eqb_spec n "any") as [->|N3].
  { apply bind_Ok_inv in H as (x & Hx & H). injection H as <-.
    exists [], [], [x]. rewrite !app_nil_r. cbn. repeat split; repeat constructor.
    exact Hx. }
  apply skip_Ok_inv in H as ->.
  exists [], [], []. rewrite !app_nil_r. repeat split; constructor.
Qed.

Lemma Sequence_grows_trans (c : Node) (cs : list Node) (v v1 v2 : Sequence) :
  Sequence_grows [c] v v1 -> Sequence_grows cs v1 v2 -> Sequence_grows (c :: cs) v v2.
Proof.
  intros (a1 & b1 & c1 & -> & A1 & B1 & C1) (a2 & b2 & c2 & -> & A2 & B2 & C2).
  exists (a1 ++ a2), (b1 ++ b2), (c1 ++ c2).
  rewrite (elemsNamed_cons "complexType"), (elemsNamed_cons "element"),
    (elemsNamed_cons "any").
  cbn [Sequence_XMLName Sequence_ComplexTypes Sequence_Elements Sequence_Any].
  rewrite !app_assoc.
  repeat split; apply Forall2_app; assumption.
Qed.

Lemma Sequence_children_grow (cs : list Node) (v v' : Sequence) :
  foldM (child (Sequence_elem unmarshalComplexType unmarshalElement)) cs v = Ok v' ->
  Sequence_grows cs v v'.
Proof.
  revert v. induction cs as [|c cs IH]; intros v H; simpl in H.
  - injection H as <-. apply Sequence_grows_refl.
  - destruct (child _ v c) as [v1|e] eqn:E; [|discriminate].
    eapply Sequence_grows_trans; [apply Sequence_child_grows, E | apply IH, H].
Qed.

(** C1, as the code has it (order within each kind).  A decoded [Sequence]
    keeps its children in three slices, one per kind.  Each slice holds,
    in the order of the source, the decoded children of its kind:
    [ComplexTypes] the [complexType] children, [Elements] the [element]
    children, [Any] the [any] children.  How children of different kinds
    were interleaved is not recorded. *)
Theorem Sequence_order_within_kinds :
  forall (el : Elem) (s : Sequence),
    unmarshalSequence Sequence_zero el = Ok s ->
    Forall2 (fun c x => unmarshalComplexType ComplexType_zero c = Ok x)
            (elemsNamed "complexType" (children el)) (Sequence_ComplexTypes s)
    /\ Forall2 (fun c x => unmarshalElement Element_zero c = Ok x)
               (elemsNamed "element" (children el)) (Sequence_Elements s)
    /\ Forall2 (fun c x => unmarshalAnyElement AnyElement_zero c = Ok x)
               (elemsNamed "any" (children el)) (Sequence_Any s).
Proof.
  intros [st cs] s H. rewrite unmarshalSequence_eq in H.
  apply unmarshalStruct_Ok_inv in H as (v1 & v2 & H1 & H2 & H3).
  rewrite foldM_noAttr in H2. injection H2 as <-.
  apply setXMLName_Ok_inv in H1 as ->.
  apply Sequence_children_grow in H3 as (a & b & c & -> & A & B & C).
  cbn. auto.
Qed.

(** *** ComplexType *)

Lemma skip_Ok {T : Type} (v : T) (el : Elem) : firstErr el = None -> skip v el = Ok v.
Proof. unfold skip. now intros ->. Qed.

Lemma ComplexType_elem_unclaimed (uE : decoder Element) (uCC : decoder ComplexContent)
  (uS : decoder Sequence) (v : ComplexType) (u : Elem) :
  ComplexType_claims (local u) = false ->
  ComplexType_elem uE uCC uS v u = skip v u.
Proof.
  unfold ComplexType_claims, ComplexType_elem. cbn [existsb].
  intro H. repeat (apply orb_false_elim in H as [-> H]). reflexivity.
Qed.

(** Below the parent of a path tag, too, a child of another name is skipped. *)
Lemma within_skips_unrecognized {T : Type} (tag : string)
  (elem : T -> Elem -> result T) (v : T) (st : StartElement)
  (before after : list Node) (u : Elem) :
  local u <> tag ->
  firstErr u = None ->
  within tag elem v (mkElem st (before ++ NElem u :: after)) =
  within tag elem v (mkElem st (before ++ after)).
Proof.
  intros Hu Hok. unfold within. cbn [children]. rewrite !foldM_app.
  destruct (foldM _ before v) as [v1|e]; [|reflexivity]. cbn [bind foldM child].
  apply String.eqb_neq in Hu. rewrite Hu, skip_Ok by exact Hok. reflexivity.
Qed.

(** C7 (tolerance).  A child element of a [complexType] whose name no field
    of [ComplexType] claims, and which is well-formed XML, has no effect on
    the decoding: with it the decoder returns exactly what it returns
    without it, so whenever the [complexType] decodes without the child it
    decodes with it, to the same model. *)
Theorem ComplexType_skips_unrecognized :
  forall (v : ComplexType) (st : StartElement) (before after : list Node) (u : Elem),
    ComplexType_claims (local u) = false ->
    firstErr u = None ->
    unmarshalComplexType v (mkElem st (before ++ NElem u :: after)) =
    unmarshalComplexType v (mkElem st (before ++ after))
    /\ (forall m, unmarshalComplexType v (mkElem st (before ++ after)) = Ok m ->
                  unmarshalComplexType v (mkElem st (before ++ NElem u :: after)) = Ok m).
Proof.
  intros v st before after u Hu Hok.
  assert (E : unmarshalComplexType v (mkElem st (before ++ NElem u :: after)) =
              unmarshalComplexType v (mkElem st (before ++ after))).
  { rewrite !unmarshalComplexType_eq. unfold unmarshalStruct.
    destruct (setXMLName ComplexType_x v st) as [v1|e]; [|reflexivity]. cbn [bind].
    destruct (foldM ComplexType_attr (Start_Attr st) v1) as [v2|e]; [|reflexivity].
    cbn [bind]. rewrite !foldM_app.
    destruct (foldM _ before v2) as [v3|e]; [|reflexivity]. cbn [bind foldM child].
    rewrite ComplexType_elem_unclaimed by exact Hu.
    rewrite skip_Ok by exact Hok. reflexivity. }
  split; [exact E|]. intros m Hm. now rewrite E.
Qed.

(** *** Failure of the resolver ends the decoding of the document *)

Lemma unmarshalStruct_fails {T : Type} (x : XMLNameInfo T)
  (attr : T -> Attr -> result T) (elem : T -> Elem -> result T)
  (el c : Elem) :
  In (NElem c) (children el) ->
  (forall v, is_err (elem v c)) ->
  forall v, is_err (unmarshalStruct x attr elem v el).
Proof.
  destruct el as [st cs]. cbn [children]. intros Hin Hc v. unfold unmarshalStruct.
  destruct (setXMLName x v st) as [v1|e]; [|now exists e]. cbn [bind].
  destruct (foldM attr (Start_Attr st) v1) as [v2|e]; [|now exists e]. cbn [bind].
  apply (foldM_fails _ _ (NElem c) Hin). intro a. apply Hc.
Qed.

Lemma within_fails {T : Type} (tag : string) (elem : T -> Elem -> result T)
  (parent c : Elem) :
  In (NElem c) (children parent) -> local c = tag ->
  (forall v, is_err (elem v c)) ->
  forall v, is_err (within tag elem v parent).
Proof.
  intros Hin Htag Hc v. unfold within.
  apply (foldM_fails _ _ (NElem c) Hin). intro a. cbn [child].
  rewrite Htag, String.eqb_refl. apply Hc.
Qed.

Lemma follows_one_inv (tag : string) (parent el : Elem) :
  follows [tag] parent el -> In (NElem el) (children parent) /\ local el = tag.
Proof.
  intro H. inversion H as [? ? ? Hin Ht | ? ? ? ? ? _ _ Hf]; subst.
  - now split.
  - inversion Hf.
Qed.

Lemma follows_two_inv (t1 t2 : string) (parent el : Elem) :
  follows [t1; t2] parent el ->
  exists mid, In (NElem mid) (children parent) /\ local mid = t1 /\
              In (NElem el) (children mid) /\ local el = t2.
Proof.
  intro H. inversion H as [| ? ? ? mid ? Hin Ht Hf]; subst.
  apply follows_one_inv in Hf as [Hin' Ht']. now exists mid.
Qed.

Lemma unmarshalInterface_no_ref (a : RestrictionAttr) (el : Elem) :
  lookupLocal "ref" (Start_Attr (start el)) = None ->
  unmarshalInterface a el = Err errNoRef.
Proof. intro H. now rewrite unmarshalInterface_eq, H. Qed.

Ltac fail_step :=
  match goal with
  | |- forall _, is_err _ => intro
  | |- is_err (bind _ _) => apply bind_is_err
  | |- is_err (unmarshalDefinitions _ _) => unfold unmarshalDefinitions
  | |- is_err (unmarshalSchema _ _) => unfold unmarshalSchema
  | |- is_err (unmarshalSimpleType _ _) => unfold unmarshalSimpleType
  | |- is_err (unmarshalRestriction _ _) => unfold unmarshalRestriction
  | |- is_err (unmarshalComplexType _ _) => rewrite unmarshalComplexType_eq
  | |- is_err (unmarshalComplexContent _ _) => rewrite unmarshalComplexContent_eq
  | |- is_err (unmarshalExtension _ _) => rewrite unmarshalExtension_eq
  | |- is_err (unmarshalSequence _ _) => rewrite unmarshalSequence_eq
  | |- is_err (unmarshalElement _ _) => rewrite unmarshalElement_eq
  end.

(** The decoder of a struct fails when the child that one of its fields
    claims cannot be decoded, whether the field names the child directly or
    below a parent. *)
Lemma handsOver_fails (t : StructType) (el target : Elem) :
  handsOver t el target ->
  lookupLocal "ref" (Start_Attr (start target)) = None ->
  failsAs t el.
Proof.
  intros H Hnoref.
  induction H as [r target Hf | t t' path el mid target Hfield Hf _ IH].
  - apply follows_one_inv in Hf as [Hin Htag]. cbn [failsAs].
    unfold unmarshalRestriction.
    apply (unmarshalStruct_fails _ _ _ _ target Hin).
    intros [xn base en at_]. unfold Restriction_elem. rewrite Htag. cbn.
    rewrite (unmarshalInterface_no_ref _ _ Hnoref). now exists errNoRef.
  - specialize (IH Hnoref).
    destruct t; cbn [structFields In] in Hfield;
      repeat (destruct Hfield as [Hfield|Hfield]; [injection Hfield as <- <-|]);
      try contradiction; cbn [failsAs] in *.
    all: try (apply follows_one_inv in Hf as [Hin Htag];
              repeat fail_step;
              apply (unmarshalStruct_fails _ _ _ _ mid Hin);
              intros v0; destruct v0;
              match goal with
              | |- is_err (?f _ _) => unfold f
              | |- is_err (?f _ _ _) => unfold f
              | |- is_err (?f _ _ _ _ _) => unfold f
              end;
              rewrite Htag; cbn [String.eqb Ascii.eqb Bool.eqb];
              apply bind_is_err; apply IH).
    all: apply follows_two_inv in Hf as (par & Hin & Htag & Hin' & Htag');
      repeat fail_step;
      apply (unmarshalStruct_fails _ _ _ _ par Hin);
      intros v0;
      first [progress unfold Definitions_elem | progress unfold ComplexType_elem];
      rewrite Htag; cbn [String.eqb Ascii.eqb Bool.eqb];
      apply (within_fails _ _ _ mid Hin' Htag');
      intros v1; destruct v1; apply bind_is_err; apply IH.
Qed.

(** C3, as the code has it (missing [ref]).  Without an attribute named
    [ref], [UnmarshalXML] returns the error of line 94 and leaves the decoder
    alone; in general the error it returns is that one exactly when the key
    it derives is empty (no [ref], or a first [ref] whose final segment is
    empty), and otherwise whatever [d.Skip()] returns; [Value] is never
    given a default.  The error ends the decoding of the whole document: if
    the root leads, field by field, to an [attribute] element without [ref],
    [Unmarshal] returns an error and no [Definitions]. *)
Theorem missing_ref_aborts_decoding :
  (forall (a : RestrictionAttr) (d : Decoder) (st : StartElement),
      lacks (Start_Attr st) "ref" = true ->
      UnmarshalXML a d st =
        (Some errNoRef, mkRestrictionAttr (Start_Name st) "" "" "", d))
  /\
  (forall (a : RestrictionAttr) (d : Decoder) (st : StartElement),
      fst (fst (UnmarshalXML a d st)) =
      match lookupLocal "ref" (Start_Attr st) with
      | None => Some errNoRef
      | Some r => if String.eqb (finalSegment r) "" then Some errNoRef
                  else fst (Skip d)
      end)
  /\
  (forall (doc : list Node) (root target : Elem),
      firstElement doc = Some root ->
      handsOver TDefinitions root target ->
      lacks (Start_Attr (start target)) "ref" = true ->
      exists e, Unmarshal doc = Err e).
Proof.
  repeat split.
  - intros a d st H. apply lookupLocal_lacks in H. now rewrite UnmarshalXML_eq, H.
  - intros a d st. rewrite UnmarshalXML_eq.
    destruct (lookupLocal "ref" (Start_Attr st)) as [r|]; [|reflexivity].
    destruct (String.eqb (finalSegment r) ""); reflexivity.
  - intros doc root target Hroot Hover Hnoref. apply lookupLocal_lacks in Hnoref.
    pose proof (handsOver_fails _ _ _ Hover Hnoref) as F. cbn [failsAs] in F.
    induction doc as [|c doc IH]; [discriminate|].
    destruct c as [el| | |e]; cbn [firstElement Unmarshal] in *.
    + injection Hroot as ->. apply F.
    + now apply IH.
    + now apply IH.
    + now exists e.
Qed.

End Properties.

(** ** Further properties of the resolver *)

Lemma lookupLocal_localValue (name : string) (attrs1 attrs2 : list Attr) :
  map localValue attrs1 = map localValue attrs2 ->
  lookupLocal name attrs1 = lookupLocal name attrs2.
Proof.
  revert attrs2. induction attrs1 as [|a attrs1 IH]; intros [|b attrs2] H;
    try discriminate; [reflexivity|].
  simpl in H. injection H as Hl Hv Ht.
  cbn [lookupLocal]. rewrite Hl, Hv, (IH _ Ht). reflexivity.
Qed.

(** X1.  [UnmarshalXML] matches attributes by local name alone (lines 83 and
    98): two start elements of the same name whose attributes agree in
    local name and value, whatever their namespaces, are resolved alike. *)
Theorem UnmarshalXML_ignores_attribute_namespaces :
  forall (a : RestrictionAttr) (d : Decoder) (st1 st2 : StartElement),
    Start_Name st1 = Start_Name st2 ->
    map localValue (Start_Attr st1) = map localValue (Start_Attr st2) ->
    UnmarshalXML a d st1 = UnmarshalXML a d st2.
Proof.
  intros a d st1 st2 Hn Ha. rewrite !UnmarshalXML_eq, Hn.
  rewrite (lookupLocal_localValue "ref" _ _ Ha).
  destruct (lookupLocal "ref" (Start_Attr st2)) as [r|]; [|reflexivity].
  now rewrite (lookupLocal_localValue (finalSegment r) _ _ Ha).
Qed.

(** X2.  The error of [d.Skip()] is the error of [UnmarshalXML] (lines 105
    and 106): when a key is derived and the content of the element cannot be
    read to its end, the method returns the read error met first, having
    filled the receiver. *)
Theorem UnmarshalXML_returns_read_error :
  forall (a : RestrictionAttr) (el : Elem) (rest : Decoder) (r : string) (e : error),
    lookupLocal "ref" (Start_Attr (start el)) = Some r ->
    finalSegment r <> "" ->
    firstErr el = Some e ->
    fst (UnmarshalXML a (content el ++ rest) (start el))
    = (Some e,
       mkRestrictionAttr (Start_Name (start el)) r (finalSegment r)
         (orEmpty (lookupLocal (finalSegment r) (Start_Attr (start el)))))
    /\ unmarshalInterface a el = Err e.
Proof.
  intros a el rest r e Hr Hk He. split.
  - rewrite UnmarshalXML_eq, Hr.
    destruct (String.eqb_spec (finalSegment r) ""); [contradiction|].
    cbn [fst]. unfold Skip. now rewrite (Skip_from_content_err el e He 0 rest).
  - rewrite unmarshalInterface_eq, Hr, He.
    destruct (String.eqb_spec (finalSegment r) ""); [contradiction | reflexivity].
Qed.

Lemma finalSegment_id_iff (r : string) :
  finalSegment r = r <-> ~ occurs ":"%char r.
Proof.
  split.
  - intros E. rewrite <- E. apply finalSegment_from_no_colon. intros [].
  - intro H. unfold finalSegment. now rewrite finalSegment_from_no_colon_id.
Qed.

(** X3.  In a record that [UnmarshalXML] returns without error, [Key] is
    all of [Ref] exactly when [Ref] has no [':']: an unprefixed [ref] is
    its own key, a prefixed one never is. *)
Theorem UnmarshalXML_key_is_ref_iff_unprefixed :
  forall (a a' : RestrictionAttr) (d d' : Decoder) (st : StartElement),
    UnmarshalXML a d st = (None, a', d') ->
    (RestrictionAttr_Key a' = RestrictionAttr_Ref a'
     <-> ~ occurs ":"%char (RestrictionAttr_Ref a')).
Proof.
  intros a a' d d' st H. rewrite UnmarshalXML_eq in H.
  destruct (lookupLocal "ref" (Start_Attr st)) as [r|]; [|discriminate].
  destruct (String.eqb (finalSegment r) ""); [discriminate|].
  injection H as _ <- _. cbn. apply finalSegment_id_iff.
Qed.


(** ** Loops of the struct decoders *)

Ltac name_cases k :=
  repeat match goal with
         | |- context [String.eqb k ?s] =>
             destruct (String.eqb_spec k s) as [->|?];
             cbn [String.eqb Ascii.eqb Bool.eqb]
         end.

Ltac invert_step H :=
  repeat lazymatch type of H with
         | bind _ _ = _ => apply bind_Ok_inv in H as (? & ? & H)
         | skip _ _ = _ => apply skip_Ok_inv in H
         | Ok _ = Ok _ => injection H as H
         end;
  subst.

(** A string field bound to an attribute ends up with the text of the last
    attribute of that local name, or keeps what it held. *)
Lemma foldM_attr_field {T : Type} (attr : T -> Attr -> result T)
  (g : T -> string) (n : string) :
  (forall v a v', attr v a = Ok v' ->
                  g v' = if String.eqb (Local (Attr_Name a)) n
                         then Attr_Value a else g v) ->
  forall attrs v v',
    foldM attr attrs v = Ok v' ->
    g v' = match lookupLast n attrs with
           | Some m => m
           | None => g v
           end.
Proof.
  intros Hstep attrs. induction attrs as [|a attrs IH]; intros v v' H; simpl in H.
  - now injection H as <-.
  - destruct (attr v a) as [v1|e] eqn:E; [|discriminate].
    rewrite (IH _ _ H). cbn [lookupLast].
    destruct (lookupLast n attrs); [reflexivity|].
    rewrite (Hstep _ _ _ E).
    destruct (String.eqb (Local (Attr_Name a)) n); reflexivity.
Qed.

(** A field that no child changes is the same after the loop over the
    children. *)
Lemma foldM_child_keeps {T X : Type} (elem : T -> Elem -> result T) (g : T -> X) :
  (forall v c v', elem v c = Ok v' -> g v' = g v) ->
  forall cs v v', foldM (child elem) cs v = Ok v' -> g v' = g v.
Proof.
  intros Hstep cs v v' H.
  apply (foldM_invariant (child elem) (fun x => g x = g v)) with (l := cs) (a := v);
    [|exact H | reflexivity].
  intros a [c| | |] a' Hc Ha; cbn [child] in Hc; try congruence.
  now rewrite (Hstep _ _ _ Hc).
Qed.

(** A slice field fed by the children named [n] grows by their decodings,
    in document order. *)
Lemma foldM_child_slice {T X : Type} (elem : T -> Elem -> result T)
  (g : T -> list X) (n : string) (D : Elem -> result X) :
  (forall v c v', elem v c = Ok v' ->
                  if String.eqb (local c) n
                  then exists x, D c = Ok x /\ g v' = g v ++ [x]
                  else g v' = g v) ->
  forall cs v v',
    foldM (child elem) cs v = Ok v' ->
    exists xs, g v' = g v ++ xs
               /\ Forall2 (fun c x => D c = Ok x) (elemsNamed n cs) xs.
Proof.
  intros Hstep cs. induction cs as [|c cs IH]; intros v v' H; simpl in H.
  - injection H as <-. exists []. rewrite app_nil_r. split; constructor.
  - destruct (child elem v c) as [v1|e] eqn:E; [|discriminate].
    destruct (IH _ _ H) as (xs & Hxs & F).
    destruct c as [el| | |]; cbn [child elemsNamed] in *;
      try (injection E as <-; now exists xs); try discriminate.
    specialize (Hstep _ _ _ E).
    destruct (String.eqb (local el) n).
    + destruct Hstep as (x & Hx & Hg). exists (x :: xs). split.
      * rewrite Hxs, Hg, <- app_assoc. reflexivity.
      * now constructor.
    + exists xs. split; [congruence | exact F].
Qed.

(** A struct field fed by the children named [n] is decoded into once per
    such child, each time into what the previous one left. *)
Lemma foldM_child_struct {T X : Type} (elem : T -> Elem -> result T)
  (g : T -> X) (n : string) (D : X -> Elem -> result X) :
  (forall v c v', elem v c = Ok v' ->
                  if String.eqb (local c) n
                  then D (g v) c = Ok (g v')
                  else g v' = g v) ->
  forall cs v v',
    foldM (child elem) cs v = Ok v' ->
    foldM D (elemsNamed n cs) (g v) = Ok (g v').
Proof.
  intros Hstep cs. induction cs as [|c cs IH]; intros v v' H; simpl in H.
  - now injection H as <-.
  - destruct (child elem v c) as [v1|e] eqn:E; [|discriminate].
    specialize (IH _ _ H).
    destruct c as [el| | |]; cbn [child elemsNamed] in *;
      try (injection E as <-; exact IH); try discriminate.
    specialize (Hstep _ _ _ E).
    destruct (String.eqb (local el) n).
    + cbn [foldM]. now rewrite Hstep.
    + now rewrite <- Hstep.
Qed.

(** The same for a pointer field, allocated by the first such child. *)
Lemma foldM_child_pointer {T X : Type} (elem : T -> Elem -> result T)
  (g : T -> option X) (n : string) (zero : X) (D : X -> Elem -> result X) :
  (forall v c v', elem v c = Ok v' ->
                  if String.eqb (local c) n
                  then exists x, D (deref zero (g v)) c = Ok x /\ g v' = Some x
                  else g v' = g v) ->
  forall cs v v',
    foldM (child elem) cs v = Ok v' ->
    match elemsNamed n cs with
    | [] => g v' = g v
    | l => exists x, foldM D l (deref zero (g v)) = Ok x /\ g v' = Some x
    end.
Proof.
  intros Hstep cs. induction cs as [|c cs IH]; intros v v' H; simpl in H.
  - now injection H as <-.
  - destruct (child elem v c) as [v1|e] eqn:E; [|discriminate].
    specialize (IH _ _ H).
    destruct c as [el| | |]; cbn [child elemsNamed] in *;
      try (injection E as <-; exact IH); try discriminate.
    specialize (Hstep _ _ _ E).
    destruct (String.eqb (local el) n).
    + destruct Hstep as (x & Hx & Hg). cbn [foldM]. rewrite Hx.
      rewrite Hg in IH. cbn [deref] in IH.
      destruct (elemsNamed n cs) as [|c' l].
      * exists x. split; [reflexivity | exact IH].
      * exact IH.
    + now rewrite Hstep in IH.
Qed.

(** A child that the dispatcher skips, and an attribute that binds to no
    field, leave no trace. *)
Lemma unmarshalStruct_skips_child {T : Type} (x : XMLNameInfo T)
  (attr : T -> Attr -> result T) (elem : T -> Elem -> result T)
  (v : T) (st : StartElement) (before after : list Node) (u : Elem) :
  (forall v', elem v' u = skip v' u) ->
  firstErr u = None ->
  unmarshalStruct x attr elem v (mkElem st (before ++ NElem u :: after)) =
  unmarshalStruct x attr elem v (mkElem st (before ++ after)).
Proof.
  intros Hu Hok. unfold unmarshalStruct.
  destruct (setXMLName x v st) as [v1|e]; [|reflexivity]. cbn [bind].
  destruct (foldM attr (Start_Attr st) v1) as [v2|e]; [|reflexivity]. cbn [bind].
  rewrite !foldM_app.
  destruct (foldM _ before v2) as [v3|e]; [|reflexivity]. cbn [bind foldM child].
  now rewrite Hu, skip_Ok.
Qed.

Lemma unmarshalStruct_ignores_attr {T : Type} (x : XMLNameInfo T)
  (attr : T -> Attr -> result T) (elem : T -> Elem -> result T)
  (v : T) (name : Name) (before after : list Attr) (a : Attr) (cs : list Node) :
  (forall v', attr v' a = Ok v') ->
  unmarshalStruct x attr elem v (mkElem (mkStart name (before ++ a :: after)) cs) =
  unmarshalStruct x attr elem v (mkElem (mkStart name (before ++ after)) cs).
Proof.
  intros Ha. unfold unmarshalStruct.
  assert (E : forall w, setXMLName x w (mkStart name (before ++ a :: after))
                        = setXMLName x w (mkStart name (before ++ after)))
    by reflexivity.
  rewrite E. destruct (setXMLName x v _) as [v1|e]; [|reflexivity].
  cbn [bind Start_Attr]. rewrite !foldM_app.
  destruct (foldM attr before v1) as [v2|e]; [|reflexivity].
  cbn [bind foldM]. now rewrite Ha.
Qed.


Lemma foldM_keeps {A B X : Type} (f : A -> B -> result A) (g : A -> X) :
  (forall a x a', f a x = Ok a' -> g a' = g a) ->
  forall l a a', foldM f l a = Ok a' -> g a' = g a.
Proof.
  intros Hstep l a a' H.
  apply (foldM_invariant f (fun x => g x = g a)) with (l := l) (a := a);
    [|exact H | reflexivity].
  intros b x b' Hb Hg. now rewrite (Hstep _ _ _ Hb).
Qed.

Section Structs.
Context {strconv : Strconv}.

(** What [unmarshalStruct] leaves in a field that only the attributes, or
    only the children, can change. *)
Lemma unmarshalStruct_attr_field {T : Type} (x : XMLNameInfo T)
  (attr : T -> Attr -> result T) (elem : T -> Elem -> result T)
  (g : T -> string) (n : string) :
  (forall v st v1, setXMLName x v st = Ok v1 -> g v1 = g v) ->
  (forall v a v', attr v a = Ok v' ->
                  g v' = if String.eqb (Local (Attr_Name a)) n
                         then Attr_Value a else g v) ->
  (forall v c v', elem v c = Ok v' -> g v' = g v) ->
  forall v el v',
    unmarshalStruct x attr elem v el = Ok v' ->
    g v' = match lookupLast n (Start_Attr (start el)) with
           | Some m => m
           | None => g v
           end.
Proof.
  intros Hx Ha He v [st cs] v' H.
  apply unmarshalStruct_Ok_inv in H as (v1 & v2 & H1 & H2 & H3).
  rewrite (foldM_child_keeps elem g He _ _ _ H3).
  rewrite (foldM_attr_field attr g n Ha _ _ _ H2).
  cbn [start Start_Attr]. now rewrite (Hx _ _ _ H1).
Qed.

Lemma unmarshalStruct_slice_field {T X : Type} (x : XMLNameInfo T)
  (attr : T -> Attr -> result T) (elem : T -> Elem -> result T)
  (g : T -> list X) (n : string) (D : Elem -> result X) :
  (forall v st v1, setXMLName x v st = Ok v1 -> g v1 = g v) ->
  (forall v a v', attr v a = Ok v' -> g v' = g v) ->
  (forall v c v', elem v c = Ok v' ->
                  if String.eqb (local c) n
                  then exists y, D c = Ok y /\ g v' = g v ++ [y]
                  else g v' = g v) ->
  forall v el v',
    unmarshalStruct x attr elem v el = Ok v' ->
    exists xs, g v' = g v ++ xs
               /\ Forall2 (fun c y => D c = Ok y) (elemsNamed n (children el)) xs.
Proof.
  intros Hx Ha He v [st cs] v' H.
  apply unmarshalStruct_Ok_inv in H as (v1 & v2 & H1 & H2 & H3).
  apply (foldM_child_slice elem g n D He) in H3 as (xs & Hxs & F).
  rewrite (foldM_keeps attr g Ha _ _ _ H2), (Hx _ _ _ H1) in Hxs.
  now exists xs.
Qed.

Lemma unmarshalStruct_struct_field {T X : Type} (x : XMLNameInfo T)
  (attr : T -> Attr -> result T) (elem : T -> Elem -> result T)
  (g : T -> X) (n : string) (D : X -> Elem -> result X) :
  (forall v st v1, setXMLName x v st = Ok v1 -> g v1 = g v) ->
  (forall v a v', attr v a = Ok v' -> g v' = g v) ->
  (forall v c v', elem v c = Ok v' ->
                  if String.eqb (local c) n
                  then D (g v) c = Ok (g v')
                  else g v' = g v) ->
  forall v el v',
    unmarshalStruct x attr elem v el = Ok v' ->
    foldM D (elemsNamed n (children el)) (g v) = Ok (g v').
Proof.
  intros Hx Ha He v [st cs] v' H.
  apply unmarshalStruct_Ok_inv in H as (v1 & v2 & H1 & H2 & H3).
  apply (foldM_child_struct elem g n D He) in H3.
  now rewrite (foldM_keeps attr g Ha _ _ _ H2), (Hx _ _ _ H1) in H3.
Qed.

Lemma unmarshalStruct_pointer_field {T X : Type} (x : XMLNameInfo T)
  (attr : T -> Attr -> result T) (elem : T -> Elem -> result T)
  (g : T -> option X) (n : string) (zero : X) (D : X -> Elem -> result X) :
  (forall v st v1, setXMLName x v st = Ok v1 -> g v1 = g v) ->
  (forall v a v', attr v a = Ok v' -> g v' = g v) ->
  (forall v c v', elem v c = Ok v' ->
                  if String.eqb (local c) n
                  then exists y, D (deref zero (g v)) c = Ok y /\ g v' = Some y
                  else g v' = g v) ->
  forall v el v',
    unmarshalStruct x attr elem v el = Ok v' ->
    match elemsNamed n (children el) with
    | [] => g v' = g v
    | l => exists y, foldM D l (deref zero (g v)) = Ok y /\ g v' = Some y
    end.
Proof.
  intros Hx Ha He v [st cs] v' H.
  apply unmarshalStruct_Ok_inv in H as (v1 & v2 & H1 & H2 & H3).
  apply (foldM_child_pointer elem g n zero D He) in H3.
  now rewrite (foldM_keeps attr g Ha _ _ _ H2), (Hx _ _ _ H1) in H3.
Qed.

Ltac xmlname_step :=
  let H := fresh in
  intros ? ? ? H;
  first [ apply setXMLName_Ok_inv in H as ->; reflexivity
        | cbn in H; injection H as <-; reflexivity ].

Ltac noattr_step :=
  let H := fresh in
  intros ? ? ? H; unfold noAttr in H; injection H as <-; reflexivity.

Tactic Notation "attr_step" reference(f) :=
  let v := fresh "v" in
  let a := fresh "a" in
  let k := fresh "k" in
  let E := fresh in
  let H := fresh in
  intros v a ?; destruct v; unfold f;
  remember (Local (Attr_Name a)) as k eqn:E; clear E;
  name_cases k; intro H; invert_step H; reflexivity.

Tactic Notation "elem_step" reference(f) :=
  let v := fresh "v" in
  let c := fresh "c" in
  let k := fresh "k" in
  let E := fresh in
  let H := fresh in
  intros v c ?; destruct v; unfold f;
  remember (local c) as k eqn:E; clear E;
  name_cases k; intro H; invert_step H; cbn; eauto.

(** *** Restriction *)

Lemma Enum_Value_decoded (c : Elem) (x : Enum) :
  unmarshalEnum Enum_zero c = Ok x ->
  Enum_Value x = orEmpty (lookupLast "value" (Start_Attr (start c))).
Proof.
  intro H. unfold unmarshalEnum in H.
  eapply unmarshalStruct_attr_field with (g := Enum_Value) (n := "value") in H;
    [ | xmlname_step | attr_step Enum_attr | elem_step Enum_elem ].
  rewrite H. destruct (lookupLast "value" (Start_Attr (start c))); reflexivity.
Qed.

(** X4.  The [Enum] slice of a decoded [Restriction] holds the [value]
    attributes of its [enumeration] children, in the order of the source. *)
Theorem Restriction_Enum_in_order :
  forall (el : Elem) (r : Restriction),
    unmarshalRestriction Restriction_zero el = Ok r ->
    map Enum_Value (Restriction_Enum r)
    = map (fun c => orEmpty (lookupLast "value" (Start_Attr (start c))))
          (elemsNamed "enumeration" (children el)).
Proof.
  intros el r H. unfold unmarshalRestriction in H.
  eapply unmarshalStruct_slice_field
    with (g := Restriction_Enum) (n := "enumeration") (D := unmarshalEnum Enum_zero)
    in H;
    [ | xmlname_step | attr_step Restriction_attr | elem_step Restriction_elem ].
  destruct H as (xs & -> & F).
  cbn [Restriction_zero Restriction_Enum app].
  induction F as [|c x cs xs' Hc _ IH]; [reflexivity|].
  cbn [map]. now rewrite IH, (Enum_Value_decoded _ _ Hc).
Qed.

Lemma unmarshalInterface_receiver (a1 a2 : RestrictionAttr) (el : Elem) :
  unmarshalInterface a1 el = unmarshalInterface a2 el.
Proof. now rewrite !unmarshalInterface_eq. Qed.

Lemma foldM_unmarshalInterface_last (l : list Elem) (a0 y : RestrictionAttr) :
  l <> [] ->
  foldM unmarshalInterface l a0 = Ok y ->
  exists t, lastOpt l = Some t /\ unmarshalInterface RestrictionAttr_zero t = Ok y.
Proof.
  revert a0. induction l as [|t l IH]; intros a0 Hne H; [congruence|].
  simpl in H. destruct (unmarshalInterface a0 t) as [a1|e] eqn:E; [|discriminate].
  destruct l as [|t' l].
  - injection H as <-. exists t. split; [reflexivity|].
    now rewrite (unmarshalInterface_receiver _ a0).
  - destruct (IH a1 ltac:(discriminate) H) as (u & Hu & Hy).
    exists u. split; [|exact Hy]. cbn [lastOpt] in *. now rewrite Hu.
Qed.

Lemma unmarshalInterface_Ok_inv (a y : RestrictionAttr) (el : Elem) :
  unmarshalInterface a el = Ok y ->
  RestrictionAttr_Key y <> ""
  /\ lookupLocal "ref" (Start_Attr (start el)) = Some (RestrictionAttr_Ref y)
  /\ RestrictionAttr_Key y = finalSegment (RestrictionAttr_Ref y)
  /\ RestrictionAttr_Value y
     = orEmpty (lookupLocal (RestrictionAttr_Key y) (Start_Attr (start el))).
Proof.
  rewrite unmarshalInterface_eq.
  destruct (lookupLocal "ref" (Start_Attr (start el))) as [r|]; [|discriminate].
  destruct (String.eqb_spec (finalSegment r) "") as [E|E]; [discriminate|].
  destruct (firstErr el); [discriminate|].
  intro H. injection H as <-. cbn. auto.
Qed.

(** X5.  A [Restriction] has room for one [RestrictionAttr]: every
    [attribute] child is decoded into it, and since [UnmarshalXML] starts by
    resetting the receiver (line 78), the decoded [Restriction] holds the
    resolution of the last [attribute] child alone, with a non-empty [Key];
    without such a child the field keeps what it held. *)
Theorem Restriction_keeps_last_attribute :
  forall (v : Restriction) (el : Elem) (r : Restriction),
    unmarshalRestriction v el = Ok r ->
    match lastOpt (elemsNamed "attribute" (children el)) with
    | None => Restriction_Attribute r = Restriction_Attribute v
    | Some t =>
        exists a,
          Restriction_Attribute r = Some a
          /\ unmarshalInterface RestrictionAttr_zero t = Ok a
          /\ RestrictionAttr_Key a <> ""
          /\ lookupLocal "ref" (Start_Attr (start t)) = Some (RestrictionAttr_Ref a)
          /\ RestrictionAttr_Value a
             = orEmpty (lookupLocal (RestrictionAttr_Key a) (Start_Attr (start t)))
    end.
Proof.
  intros v el r H. unfold unmarshalRestriction in H.
  eapply unmarshalStruct_pointer_field
    with (g := Restriction_Attribute) (n := "attribute")
         (zero := RestrictionAttr_zero) (D := unmarshalInterface) in H;
    [ | xmlname_step | attr_step Restriction_attr | elem_step Restriction_elem ].
  destruct (elemsNamed "attribute" (children el)) as [|t l] eqn:El.
  - exact H.
  - destruct H as (y & Hy & Hr).
    apply foldM_unmarshalInterface_last in Hy as (u & Hu & Hy); [|discriminate].
    rewrite Hu. exists y. split; [exact Hr|]. split; [exact Hy|].
    destruct (unmarshalInterface_Ok_inv _ _ _ Hy) as (K & R & _ & V). auto.
Qed.

(** *** Message *)

Lemma Part_decoded (c : Elem) (p : Part) :
  unmarshalPart Part_zero c = Ok p ->
  Part_Name p = orEmpty (lookupLast "name" (Start_Attr (start c)))
  /\ Part_Type p = orEmpty (lookupLast "type" (Start_Attr (start c)))
  /\ Part_Element p = orEmpty (lookupLast "element" (Start_Attr (start c))).
Proof.
  intro H. unfold unmarshalPart in H.
  pose proof H as H1. pose proof H as H2.
  eapply unmarshalStruct_attr_field with (g := Part_Name) (n := "name") in H;
    [ | xmlname_step | attr_step Part_attr | elem_step Part_elem ].
  eapply unmarshalStruct_attr_field with (g := Part_Type) (n := "type") in H1;
    [ | xmlname_step | attr_step Part_attr | elem_step Part_elem ].
  eapply unmarshalStruct_attr_field with (g := Part_Element) (n := "element") in H2;
    [ | xmlname_step | attr_step Part_attr | elem_step Part_elem ].
  rewrite H, H1, H2.
  destruct (lookupLast "name" _), (lookupLast "type" _), (lookupLast "element" _);
    auto.
Qed.

(** X6.  The [Parts] of a decoded [Message] are its [part] children in the
    order of the source, each with the [name], [type] and [element]
    attributes of its child (empty where the child has none), and [Name] is
    the [name] attribute of the [message]. *)
Theorem Message_Parts_in_order :
  forall (el : Elem) (m : Message),
    unmarshalMessage Message_zero el = Ok m ->
    Message_Name m = orEmpty (lookupLast "name" (Start_Attr (start el)))
    /\ Forall2 (fun c p =>
                  Part_Name p = orEmpty (lookupLast "name" (Start_Attr (start c)))
                  /\ Part_Type p = orEmpty (lookupLast "type" (Start_Attr (start c)))
                  /\ Part_Element p
                     = orEmpty (lookupLast "element" (Start_Attr (start c))))
               (elemsNamed "part" (children el)) (Message_Parts m).
Proof.
  intros el m H. unfold unmarshalMessage in H. pose proof H as Hn. split.
  - eapply unmarshalStruct_attr_field with (g := Message_Name) (n := "name") in Hn;
      [ | xmlname_step | attr_step Message_attr | elem_step Message_elem ].
    rewrite Hn. destruct (lookupLast "name" _); reflexivity.
  - eapply unmarshalStruct_slice_field
      with (g := Message_Parts) (n := "part") (D := unmarshalPart Part_zero) in H;
      [ | xmlname_step | attr_step Message_attr | elem_step Message_elem ].
    destruct H as (xs & -> & F). cbn [Message_zero Message_Parts app].
    induction F as [|c p cs ps Hc _ IH]; constructor; [|exact IH].
    now apply Part_decoded.
Qed.

(** *** Schema *)

(** X7.  Decoding a [schema] appends its [import], [simpleType],
    [complexType] and [element] children, each kind in the order of the
    source, to the four slices of the [Schema] it decodes into; into a fresh
    [Schema] the slices are exactly these children. *)
Theorem Schema_order_within_kinds :
  forall (v : Schema) (el : Elem) (s : Schema),
    unmarshalSchema v el = Ok s ->
    exists ims sts cts els,
      Schema_Imports s = Schema_Imports v ++ ims
      /\ Schema_SimpleTypes s = Schema_SimpleTypes v ++ sts
      /\ Schema_ComplexTypes s = Schema_ComplexTypes v ++ cts
      /\ Schema_Elements s = Schema_Elements v ++ els
      /\ Forall2 (fun c x => unmarshalImportSchema ImportSchema_zero c = Ok x)
                 (elemsNamed "import" (children el)) ims
      /\ Forall2 (fun c x => unmarshalSimpleType SimpleType_zero c = Ok x)
                 (elemsNamed "simpleType" (children el)) sts
      /\ Forall2 (fun c x => unmarshalComplexType ComplexType_zero c = Ok x)
                 (elemsNamed "complexType" (children el)) cts
      /\ Forall2 (fun c x => unmarshalElement Element_zero c = Ok x)
                 (elemsNamed "element" (children el)) els.
Proof.
  intros v el s H. unfold unmarshalSchema in H.
  pose proof H as H1. pose proof H as H2. pose proof H as H3.
  eapply unmarshalStruct_slice_field
    with (g := Schema_Imports) (n := "import")
         (D := unmarshalImportSchema ImportSchema_zero) in H;
    [ | xmlname_step | noattr_step | elem_step Schema_elem ].
  eapply unmarshalStruct_slice_field
    with (g := Schema_SimpleTypes) (n := "simpleType")
         (D := unmarshalSimpleType SimpleType_zero) in H1;
    [ | xmlname_step | noattr_step | elem_step Schema_elem ].
  eapply unmarshalStruct_slice_field
    with (g := Schema_ComplexTypes) (n := "complexType")
         (D := unmarshalComplexType ComplexType_zero) in H2;
    [ | xmlname_step | noattr_step | elem_step Schema_elem ].
  eapply unmarshalStruct_slice_field
    with (g := Schema_Elements) (n := "element")
         (D := unmarshalElement Element_zero) in H3;
    [ | xmlname_step | noattr_step | elem_step Schema_elem ].
  destruct H as (x0 & E0 & F0), H1 as (x1 & E1 & F1), H2 as (x2 & E2 & F2),
    H3 as (x3 & E3 & F3).
  exists x0, x1, x2, x3. auto 10.
Qed.

(** *** Fields below a path *)

Lemma within_keeps {T X : Type} (tag : string) (elem : T -> Elem -> result T)
  (g : T -> X) :
  (forall v c v', elem v c = Ok v' -> g v' = g v) ->
  forall v p v', within tag elem v p = Ok v' -> g v' = g v.
Proof.
  intros Hstep v p v' H. unfold within in H.
  apply (foldM_child_keeps _ g) in H; [exact H|].
  intros w c w' Hc. destruct (String.eqb (local c) tag).
  - now apply (Hstep _ _ _ Hc).
  - now apply skip_Ok_inv in Hc as ->.
Qed.

Tactic Notation "elem_step_within" reference(f) :=
  let v := fresh "v" in
  let c := fresh "c" in
  let k := fresh "k" in
  let E := fresh in
  let H := fresh in
  let Hw := fresh in
  let w := fresh "w" in
  intros v c ?; unfold f;
  remember (local c) as k eqn:E; clear E;
  name_cases k; intro H;
  first [ eapply within_keeps; [|exact H];
          intros w ? ? Hw; cbn beta in Hw; destruct w; invert_step Hw; reflexivity
        | destruct v; invert_step H; cbn; eauto ].

(** *** ComplexType and Sequence *)

(** X8.  A [ComplexType] has room for one [Sequence]: every [sequence]
    child of a [complexType] is decoded into the same [Sequence], the first
    into a fresh one and each later one into what the earlier ones left. *)
Theorem ComplexType_merges_sequences :
  forall (el : Elem) (c : ComplexType),
    unmarshalComplexType ComplexType_zero el = Ok c ->
    match elemsNamed "sequence" (children el) with
    | [] => ComplexType_Sequence c = None
    | l => exists s, foldM unmarshalSequence l Sequence_zero = Ok s
                     /\ ComplexType_Sequence c = Some s
    end.
Proof.
  intros el c H. rewrite unmarshalComplexType_eq in H.
  eapply unmarshalStruct_pointer_field
    with (g := ComplexType_Sequence) (n := "sequence")
         (zero := Sequence_zero) (D := unmarshalSequence) in H;
    [ exact H | xmlname_step | attr_step ComplexType_attr
    | elem_step_within ComplexType_elem ].
Qed.

(** X9.  Decoding a [sequence] into a [Sequence] that already holds
    entries appends to each of its three slices and drops or reorders
    nothing: what it held stays in front, followed by the decoded
    [complexType], [element] and [any] children in the order of the
    source. *)
Theorem Sequence_accumulates :
  forall (v : Sequence) (el : Elem) (s : Sequence),
    unmarshalSequence v el = Ok s ->
    exists cts els anys,
      Sequence_ComplexTypes s = Sequence_ComplexTypes v ++ cts
      /\ Sequence_Elements s = Sequence_Elements v ++ els
      /\ Sequence_Any s = Sequence_Any v ++ anys
      /\ Forall2 (fun c x => unmarshalComplexType ComplexType_zero c = Ok x)
                 (elemsNamed "complexType" (children el)) cts
      /\ Forall2 (fun c x => unmarshalElement Element_zero c = Ok x)
                 (elemsNamed "element" (children el)) els
      /\ Forall2 (fun c x => unmarshalAnyElement AnyElement_zero c = Ok x)
                 (elemsNamed "any" (children el)) anys.
Proof.
  intros v [st cs] s H. rewrite unmarshalSequence_eq in H.
  apply unmarshalStruct_Ok_inv in H as (v1 & v2 & H1 & H2 & H3).
  rewrite foldM_noAttr in H2. injection H2 as <-.
  apply setXMLName_Ok_inv in H1 as ->.
  apply Sequence_children_grow in H3 as (a & b & c & -> & A & B & C).
  exists a, b, c. cbn. auto 10.
Qed.

(** *** Definitions and PortType *)

(** X10.  [Definitions] holds one [PortType], one [Binding] and one
    [Service] (the source notes "TODO: PortType slice?"): when a document
    has several [portType], [binding] or [service] children, all of them are
    decoded into the one field, each into what the earlier ones left. *)
Theorem Definitions_merges_repeated_children :
  forall (el : Elem) (d : Definitions),
    unmarshalDefinitions Definitions_zero el = Ok d ->
    foldM unmarshalPortType (elemsNamed "portType" (children el)) PortType_zero
    = Ok (Definitions_PortType d)
    /\ foldM unmarshalBinding (elemsNamed "binding" (children el)) Binding_zero
       = Ok (Definitions_Binding d)
    /\ foldM unmarshalService (elemsNamed "service" (children el)) Service_zero
       = Ok (Definitions_Service d).
Proof.
  intros el d H. unfold unmarshalDefinitions in H.
  pose proof H as H1. pose proof H as H2.
  eapply unmarshalStruct_struct_field
    with (g := Definitions_PortType) (n := "portType") (D := unmarshalPortType) in H;
    [ | xmlname_step | attr_step Definitions_attr
      | elem_step_within Definitions_elem ].
  eapply unmarshalStruct_struct_field
    with (g := Definitions_Binding) (n := "binding") (D := unmarshalBinding) in H1;
    [ | xmlname_step | attr_step Definitions_attr
      | elem_step_within Definitions_elem ].
  eapply unmarshalStruct_struct_field
    with (g := Definitions_Service) (n := "service") (D := unmarshalService) in H2;
    [ | xmlname_step | attr_step Definitions_attr
      | elem_step_within Definitions_elem ].
  auto.
Qed.

(** X11.  Decoding a [portType] into a [PortType] that already holds
    operations appends the decoded [operation] children, in the order of the
    source, to what it held; [Name] becomes the [name] attribute if there is
    one and stays otherwise.  With X10: several [portType] elements end up
    as one [PortType] with the operations of all, named after the last that
    has a name. *)
Theorem PortType_accumulates :
  forall (v : PortType) (el : Elem) (p : PortType),
    unmarshalPortType v el = Ok p ->
    PortType_Name p = match lookupLast "name" (Start_Attr (start el)) with
                      | Some m => m
                      | None => PortType_Name v
                      end
    /\ exists ops,
        PortType_Operations p = PortType_Operations v ++ ops
        /\ Forall2 (fun c o => unmarshalOperation Operation_zero c = Ok o)
                   (elemsNamed "operation" (children el)) ops.
Proof.
  intros v el p H. unfold unmarshalPortType in H. pose proof H as H1. split.
  - eapply unmarshalStruct_attr_field with (g := PortType_Name) (n := "name") in H;
      [ exact H | xmlname_step | attr_step PortType_attr | elem_step PortType_elem ].
  - eapply unmarshalStruct_slice_field
      with (g := PortType_Operations) (n := "operation")
           (D := unmarshalOperation Operation_zero) in H1;
      [ exact H1 | xmlname_step | attr_step PortType_attr | elem_step PortType_elem ].
Qed.

(** X12.  The root's [name], [targetNamespace], [SOAP-ENV] and [SOAP-ENC]
    attributes, matched by local name whatever their namespace (so a
    declaration [xmlns:SOAP-ENV="..."] counts), end up verbatim in [Name],
    [TargetNamespace], [SOAPEnv] and [SOAPEnc]; [Imports] and [Messages]
    hold the [import] and [message] children in the order of the source. *)
Theorem Definitions_root_fields :
  forall (el : Elem) (d : Definitions),
    unmarshalDefinitions Definitions_zero el = Ok d ->
    Definitions_Name d = orEmpty (lookupLast "name" (Start_Attr (start el)))
    /\ Definitions_TargetNamespace d
       = orEmpty (lookupLast "targetNamespace" (Start_Attr (start el)))
    /\ Definitions_SOAPEnv d = orEmpty (lookupLast "SOAP-ENV" (Start_Attr (start el)))
    /\ Definitions_SOAPEnc d = orEmpty (lookupLast "SOAP-ENC" (Start_Attr (start el)))
    /\ Forall2 (fun c x => unmarshalImport Import_zero c = Ok x)
               (elemsNamed "import" (children el)) (Definitions_Imports d)
    /\ Forall2 (fun c x => unmarshalMessage Message_zero c = Ok x)
               (elemsNamed "message" (children el)) (Definitions_Messages d).
Proof.
  intros el d H. unfold unmarshalDefinitions in H.
  pose proof H as H1. pose proof H as H2. pose proof H as H3.
  pose proof H as H4. pose proof H as H5.
  eapply unmarshalStruct_attr_field with (g := Definitions_Name) (n := "name") in H;
    [ | xmlname_step | attr_step Definitions_attr
      | elem_step_within Definitions_elem ].
  eapply unmarshalStruct_attr_field
    with (g := Definitions_TargetNamespace) (n := "targetNamespace") in H1;
    [ | xmlname_step | attr_step Definitions_attr
      | elem_step_within Definitions_elem ].
  eapply unmarshalStruct_attr_field
    with (g := Definitions_SOAPEnv) (n := "SOAP-ENV") in H2;
    [ | xmlname_step | attr_step Definitions_attr
      | elem_step_within Definitions_elem ].
  eapply unmarshalStruct_attr_field
    with (g := Definitions_SOAPEnc) (n := "SOAP-ENC") in H3;
    [ | xmlname_step | attr_step Definitions_attr
      | elem_step_within Definitions_elem ].
  eapply unmarshalStruct_slice_field
    with (g := Definitions_Imports) (n := "import")
         (D := unmarshalImport Import_zero) in H4;
    [ | xmlname_step | attr_step Definitions_attr
      | elem_step_within Definitions_elem ].
  eapply unmarshalStruct_slice_field
    with (g := Definitions_Messages) (n := "message")
         (D := unmarshalMessage Message_zero) in H5;
    [ | xmlname_step | attr_step Definitions_attr
      | elem_step_within Definitions_elem ].
  rewrite H, H1, H2, H3.
  destruct H4 as (x4 & -> & F4), H5 as (x5 & -> & F5).
  destruct (lookupLast "name" _), (lookupLast "targetNamespace" _),
    (lookupLast "SOAP-ENV" _), (lookupLast "SOAP-ENC" _); cbn; auto 10.
Qed.

(** A struct field tagged ["parent>tag"] is decoded into once per element
    [tag] below a child [parent], in document order. *)
Lemma within_struct {T X : Type} (tag : string) (elem : T -> Elem -> result T)
  (g : T -> X) (D : X -> Elem -> result X) :
  (forall v c v', elem v c = Ok v' -> D (g v) c = Ok (g v')) ->
  forall v p v',
    within tag elem v p = Ok v' ->
    foldM D (elemsNamed tag (children p)) (g v) = Ok (g v').
Proof.
  intros Hstep v p v' H. unfold within in H.
  apply (foldM_child_struct _ g tag D) in H; [exact H|].
  intros w c w' Hc. destruct (String.eqb (local c) tag).
  - now apply Hstep.
  - now apply skip_Ok_inv in Hc as ->.
Qed.

Lemma foldM_child_below {T X : Type} (elem : T -> Elem -> result T)
  (g : T -> X) (parent tag : string) (D : X -> Elem -> result X) :
  (forall v c v', elem v c = Ok v' ->
                  if String.eqb (local c) parent
                  then foldM D (elemsNamed tag (children c)) (g v) = Ok (g v')
                  else g v' = g v) ->
  forall cs v v',
    foldM (child elem) cs v = Ok v' ->
    foldM D (elemsBelow parent tag cs) (g v) = Ok (g v').
Proof.
  intros Hstep cs. unfold elemsBelow.
  induction cs as [|c cs IH]; intros v v' H; simpl in H.
  - now injection H as <-.
  - destruct (child elem v c) as [v1|e] eqn:E; [|discriminate].
    specialize (IH _ _ H).
    destruct c as [el| | |]; cbn [child elemsNamed] in *;
      try (injection E as <-; exact IH); try discriminate.
    specialize (Hstep _ _ _ E).
    destruct (String.eqb (local el) parent).
    + cbn [flat_map]. rewrite foldM_app, Hstep. exact IH.
    + now rewrite <- Hstep.
Qed.

(** X20.  [Definitions] holds one [Schema], tagged [types>schema]: all the
    [schema] elements of all the [types] children of the root are decoded
    into it, in document order, the first into a fresh [Schema] and each
    later one into what the earlier ones left (so that, by X7, their types
    and elements end up concatenated). *)
Theorem Definitions_merges_schemas :
  forall (el : Elem) (d : Definitions),
    unmarshalDefinitions Definitions_zero el = Ok d ->
    foldM unmarshalSchema (elemsBelow "types" "schema" (children el)) Schema_zero
    = Ok (Definitions_Schema d).
Proof.
  intros [st cs] d H. unfold unmarshalDefinitions in H.
  apply unmarshalStruct_Ok_inv in H as (v1 & v2 & H1 & H2 & H3).
  apply (foldM_child_below Definitions_elem Definitions_Schema "types" "schema"
           unmarshalSchema) in H3.
  - rewrite (foldM_keeps Definitions_attr Definitions_Schema
               ltac:(attr_step Definitions_attr) _ _ _ H2) in H3.
    unfold Definitions_x in H1. apply setXMLName_Ok_inv in H1 as ->. exact H3.
  - intros v c v'. unfold Definitions_elem.
    remember (local c) as k eqn:E. clear E. name_cases k; intro H;
      try (destruct v; invert_step H; reflexivity).
    apply (within_struct _ _ Definitions_Schema unmarshalSchema) in H; [exact H|].
    intros w c' w' Hw. destruct w. invert_step Hw. assumption.
Qed.

(** *** Service and Operation *)

Lemma unmarshalString_text (el : Elem) (s : string) :
  unmarshalString el = Ok s -> s = text (children el).
Proof.
  unfold unmarshalString.
  assert (G : forall cs data s',
             foldM (fun data c =>
                      match c with
                      | NElem el' => skip data el'
                      | NCharData t => Ok (data ++ t)%string
                      | NOther => Ok data
                      | NErr e => Err e
                      end) cs data = Ok s' ->
             s' = (data ++ text cs)%string).
  { induction cs as [|c cs IH]; intros data s' H; simpl in H.
    - injection H as <-. cbn [text]. now rewrite append_nil_r.
    - destruct c as [el'| t | |e]; cbn [text].
      + destruct (skip data el') as [d1|e] eqn:E; [|discriminate].
        apply skip_Ok_inv in E as ->. now apply IH.
      + rewrite (IH _ _ H). now rewrite append_assoc.
      + now apply IH.
      + discriminate. }
  intro H. now apply G in H.
Qed.

Lemma foldM_unmarshalString_last (l : list Elem) (d0 d : string) :
  foldM (fun _ c => unmarshalString c) l d0 = Ok d ->
  d = match lastOpt l with
      | Some c => text (children c)
      | None => d0
      end.
Proof.
  revert d0. induction l as [|c l IH]; intros d0 H; simpl in H.
  - now injection H as <-.
  - destruct (unmarshalString c) as [d1|e] eqn:E; [|discriminate].
    rewrite (IH _ H). cbn [lastOpt].
    destruct (lastOpt l); [reflexivity|]. now apply unmarshalString_text.
Qed.

(** X21.  The [Doc] of a decoded [Service] is the character data directly
    inside its last [documentation] child (markup nested in it is dropped,
    an earlier [documentation] is overwritten), and [Ports] holds the [port]
    children in the order of the source. *)
Theorem Service_fields :
  forall (el : Elem) (sv : Service),
    unmarshalService Service_zero el = Ok sv ->
    Service_Doc sv = match lastOpt (elemsNamed "documentation" (children el)) with
                     | Some c => text (children c)
                     | None => ""
                     end
    /\ Forall2 (fun c p => unmarshalPort Port_zero c = Ok p)
               (elemsNamed "port" (children el)) (Service_Ports sv).
Proof.
  intros el sv H. unfold unmarshalService in H. pose proof H as H1. split.
  - eapply unmarshalStruct_struct_field
      with (g := Service_Doc) (n := "documentation")
           (D := fun _ c => unmarshalString c) in H;
      [ | xmlname_step | noattr_step | elem_step Service_elem ].
    now apply foldM_unmarshalString_last in H.
  - eapply unmarshalStruct_slice_field
      with (g := Service_Ports) (n := "port") (D := unmarshalPort Port_zero) in H1;
      [ | xmlname_step | noattr_step | elem_step Service_elem ].
    now destruct H1 as (xs & -> & F).
Qed.

Lemma IO_decoded (v : IO) (c : Elem) (io : IO) :
  unmarshalIO v c = Ok io ->
  IO_XMLName io = Start_Name (start c)
  /\ IO_Message io = match lookupLast "message" (Start_Attr (start c)) with
                     | Some m => m
                     | None => IO_Message v
                     end.
Proof.
  intro H. unfold unmarshalIO in H. split.
  - destruct c as [st cs].
    apply unmarshalStruct_Ok_inv in H as (v1 & v2 & H1 & H2 & H3).
    rewrite (foldM_child_keeps IO_elem IO_XMLName ltac:(elem_step IO_elem) _ _ _ H3).
    rewrite (foldM_keeps IO_attr IO_XMLName ltac:(attr_step IO_attr) _ _ _ H2).
    now apply setXMLName_Ok_inv in H1 as ->.
  - eapply unmarshalStruct_attr_field with (g := IO_Message) (n := "message") in H;
      [ exact H | xmlname_step | attr_step IO_attr | elem_step IO_elem ].
Qed.

(** X22.  [IO] leaves its [XMLName] untagged, so it takes the name of
    whatever element it is decoded from: the [Input] and [Output] of a
    decoded [Operation] with one [input] and one [output] child carry the
    names of these children and their [message] attributes. *)
Theorem Operation_input_output :
  forall (el cin cout : Elem) (o : Operation),
    unmarshalOperation Operation_zero el = Ok o ->
    elemsNamed "input" (children el) = [cin] ->
    elemsNamed "output" (children el) = [cout] ->
    exists i u,
      Operation_Input o = Some i /\ Operation_Output o = Some u
      /\ IO_XMLName i = Start_Name (start cin)
      /\ IO_Message i = orEmpty (lookupLast "message" (Start_Attr (start cin)))
      /\ IO_XMLName u = Start_Name (start cout)
      /\ IO_Message u = orEmpty (lookupLast "message" (Start_Attr (start cout))).
Proof.
  intros el cin cout o H Hin Hout. unfold unmarshalOperation in H.
  pose proof H as H1.
  eapply unmarshalStruct_pointer_field
    with (g := Operation_Input) (n := "input") (zero := IO_zero) (D := unmarshalIO)
    in H; [ | xmlname_step | attr_step Operation_attr | elem_step Operation_elem ].
  eapply unmarshalStruct_pointer_field
    with (g := Operation_Output) (n := "output") (zero := IO_zero) (D := unmarshalIO)
    in H1; [ | xmlname_step | attr_step Operation_attr | elem_step Operation_elem ].
  rewrite Hin in H. rewrite Hout in H1.
  destruct H as (i & Hi & Ei), H1 as (u & Hu & Eu).
  cbn [foldM Operation_zero Operation_Input Operation_Output deref] in Hi, Hu.
  destruct (unmarshalIO IO_zero cin) as [i'|] eqn:Ci; [|discriminate].
  destruct (unmarshalIO IO_zero cout) as [u'|] eqn:Cu; [|discriminate].
  injection Hi as ->. injection Hu as ->.
  apply IO_decoded in Ci as (Ni & Mi). apply IO_decoded in Cu as (Nu & Mu).
  exists i, u. rewrite Mi, Mu.
  destruct (lookupLast "message" (Start_Attr (start cin))),
    (lookupLast "message" (Start_Attr (start cout))); auto 10.
Qed.

(** *** What the decoders pass over, and what stops them *)

Lemma setXMLName_mismatch {T : Type} (want : string) (set : T -> Name -> T)
  (v : T) (st : StartElement) :
  want <> "" -> want <> Local (Start_Name st) ->
  setXMLName (Some (want, set)) v st
  = Err (UnmarshalError ("expected element type <" ++ want ++ "> but have <"
                         ++ Local (Start_Name st) ++ ">")).
Proof.
  intros H1 H2. unfold setXMLName.
  apply String.eqb_neq in H1, H2. now rewrite H1, H2.
Qed.

Lemma setXMLName_name_inv {T : Type} (want : string) (set : T -> Name -> T)
  (v v' : T) (st : StartElement) :
  setXMLName (Some (want, set)) v st = Ok v' ->
  want = "" \/ want = Local (Start_Name st).
Proof.
  unfold setXMLName.
  destruct (String.eqb_spec want ""); [now left|].
  destruct (String.eqb_spec want (Local (Start_Name st))); [now right|].
  discriminate.
Qed.


Ltac unclaimed H :=
  cbn [existsb] in H;
  repeat (apply orb_false_elim in H as [? H]);
  repeat match goal with
         | E : String.eqb _ _ = false |- _ => rewrite E; clear E
         end.

(** X13.  An attribute of an [element] whose local name is none of [name],
    [ref], [type], [minOccurs], [maxOccurs], [nillable] is dropped: with it
    the decoder returns exactly what it returns without it. *)
Theorem Element_ignores_unknown_attribute :
  forall (v : Element) (name : Name) (before after : list Attr) (a : Attr)
         (cs : list Node),
    Element_binds (Local (Attr_Name a)) = false ->
    unmarshalElement v (mkElem (mkStart name (before ++ a :: after)) cs)
    = unmarshalElement v (mkElem (mkStart name (before ++ after)) cs).
Proof.
  intros v name before after a cs H. rewrite !unmarshalElement_eq.
  apply unmarshalStruct_ignores_attr.
  intros [xn nm rf ty mn mx nl ct]. unfold Element_attr, Element_binds in *.
  unclaimed H. reflexivity.
Qed.

(** X14.  [Min] is an [int] and [Nillable] a [bool]: an [element] with a
    non-empty [minOccurs] that does not parse as an integer, or a non-empty
    [nillable] that does not parse as a boolean, cannot be decoded. *)
Theorem Element_unparsable_attribute_fails :
  forall (v : Element) (el : Elem) (a : Attr) (e : error),
    In a (Start_Attr (start el)) ->
    Attr_Value a <> "" ->
    (Local (Attr_Name a) = "minOccurs" /\ ParseInt (TrimSpace (Attr_Value a)) = Err e)
    \/ (Local (Attr_Name a) = "nillable"
        /\ ParseBool (TrimSpace (Attr_Value a)) = Err e) ->
    exists e', unmarshalElement v el = Err e'.
Proof.
  intros v [st cs] a e Hin Hne Hbad. rewrite unmarshalElement_eq.
  unfold unmarshalStruct. cbn [start] in Hin.
  destruct (setXMLName Element_x v st) as [v1|e1]; [|now exists e1]. cbn [bind].
  apply bind_is_err. apply (foldM_fails _ _ a Hin).
  intros [xn nm rf ty mn mx nl ct]. unfold Element_attr.
  assert (L : Nat.eqb (String.length (Attr_Value a)) 0 = false).
  { destruct (Attr_Value a); [congruence | reflexivity]. }
  destruct Hbad as [[-> Hp]|[-> Hp]]; cbn [String.eqb Ascii.eqb Bool.eqb];
    apply bind_is_err; [unfold copyInt | unfold copyBool]; rewrite L, Hp;
    now exists e.
Qed.

(** X15.  The root must be named [definitions], in whatever namespace: on
    an element of another local name the decoder of [Definitions] returns
    [expected element type <definitions> but have <...>] before looking at
    anything else, and when it succeeds [XMLName] is the name of the
    element, namespace included. *)
Theorem Definitions_root_name :
  forall (v : Definitions) (el : Elem),
    (local el <> "definitions" ->
     unmarshalDefinitions v el
     = Err (UnmarshalError ("expected element type <definitions> but have <"
                            ++ local el ++ ">")))
    /\ (forall d, unmarshalDefinitions v el = Ok d ->
                  local el = "definitions"
                  /\ Definitions_XMLName d = Start_Name (start el)).
Proof.
  intros v [st cs]. unfold unmarshalDefinitions, local. cbn [start]. split.
  - intro H. unfold unmarshalStruct, Definitions_x.
    rewrite setXMLName_mismatch; [reflexivity | discriminate | congruence].
  - intros d H.
    apply unmarshalStruct_Ok_inv in H as (v1 & v2 & H1 & H2 & H3).
    unfold Definitions_x in H1.
    pose proof (setXMLName_name_inv _ _ _ _ _ H1) as [E|E]; [discriminate|].
    split; [now symmetry|].
    rewrite (foldM_child_keeps Definitions_elem Definitions_XMLName
               ltac:(elem_step_within Definitions_elem) _ _ _ H3).
    rewrite (foldM_keeps Definitions_attr Definitions_XMLName
               ltac:(attr_step Definitions_attr) _ _ _ H2).
    now apply setXMLName_Ok_inv in H1 as ->.
Qed.

(** X16.  The facets of a [restriction] other than [enumeration] (and its
    [attribute]), such as [pattern] or [maxLength], are passed over: a
    well-formed child of another name changes nothing in what is decoded. *)
Theorem Restriction_skips_other_facets :
  forall (v : Restriction) (st : StartElement) (before after : list Node) (u : Elem),
    Restriction_claims (local u) = false ->
    firstErr u = None ->
    unmarshalRestriction v (mkElem st (before ++ NElem u :: after))
    = unmarshalRestriction v (mkElem st (before ++ after)).
Proof.
  intros v st before after u H Hok. unfold unmarshalRestriction.
  apply unmarshalStruct_skips_child; [|exact Hok].
  intros [xn base en at_]. unfold Restriction_elem, Restriction_claims in *.
  unclaimed H. reflexivity.
Qed.

(** X17.  An [extension] has a field for its [sequence] alone: any other
    well-formed child, an [attribute] even without [ref] included, is passed
    over, since only the [attribute] children of a [restriction] reach
    [UnmarshalXML]. *)
Theorem Extension_skips_all_but_sequence :
  forall (v : Extension) (st : StartElement) (before after : list Node) (u : Elem),
    local u <> "sequence" ->
    firstErr u = None ->
    unmarshalExtension v (mkElem st (before ++ NElem u :: after))
    = unmarshalExtension v (mkElem st (before ++ after)).
Proof.
  intros v st before after u H Hok. rewrite !unmarshalExtension_eq.
  apply unmarshalStruct_skips_child; [|exact Hok].
  intros [xn base sq]. unfold Extension_elem.
  apply String.eqb_neq in H. now rewrite H.
Qed.

(** X18.  A well-formed child of the root that is none of [service],
    [import], [types], [message], [portType], [binding] (a [documentation],
    say) is passed over. *)
Theorem Definitions_skips_unrecognized :
  forall (v : Definitions) (st : StartElement) (before after : list Node) (u : Elem),
    Definitions_claims (local u) = false ->
    firstErr u = None ->
    unmarshalDefinitions v (mkElem st (before ++ NElem u :: after))
    = unmarshalDefinitions v (mkElem st (before ++ after)).
Proof.
  intros v st before after u H Hok. unfold unmarshalDefinitions.
  apply unmarshalStruct_skips_child; [|exact Hok].
  intros w. unfold Definitions_elem, Definitions_claims in *.
  unclaimed H. reflexivity.
Qed.

(** *** Read errors *)

(** A loop over nodes fails if one of them holds a read error and every
    round on such a node fails. *)
Lemma foldM_read_error {A : Type} (f : A -> Node -> result A) (cs : list Node) :
  firstSome firstErrNode cs <> None ->
  (forall c, In c cs -> firstErrNode c <> None -> forall a, is_err (f a c)) ->
  forall a, is_err (foldM f cs a).
Proof.
  induction cs as [|c cs IH]; intros H Hc a; [now contradiction H|].
  cbn [firstSome] in H. cbn [foldM].
  destruct (firstErrNode c) as [e|] eqn:E.
  - destruct (Hc c (or_introl eq_refl) ltac:(congruence) a) as [e' ->].
    now exists e'.
  - destruct (f a c) as [a1|e]; [|now exists e].
    apply IH; [exact H|]. intros c' Hin. apply Hc. now right.
Qed.

Lemma child_read_error {T : Type} (elem : T -> Elem -> result T) (cs : list Node) :
  firstSome firstErrNode cs <> None ->
  (forall c, In (NElem c) cs -> firstErr c <> None -> forall v, is_err (elem v c)) ->
  forall v, is_err (foldM (child elem) cs v).
Proof.
  intros H Hc. apply foldM_read_error; [exact H|].
  intros [c| | |e] Hin Hne a; cbn [child firstErrNode] in *; try congruence.
  - now apply Hc.
  - now exists e.
Qed.

Lemma skip_read_error {T : Type} (v : T) (el : Elem) :
  firstErr el <> None -> is_err (skip v el).
Proof. unfold skip. destruct (firstErr el) as [e|]; [now exists e | congruence]. Qed.

Lemma unmarshalString_read_error (el : Elem) :
  firstErr el <> None -> is_err (unmarshalString el).
Proof.
  destruct el as [st cs]. rewrite firstErr_eq. intro H. unfold unmarshalString.
  apply foldM_read_error; [exact H|].
  intros [c| | |e] _ Hne a; cbn [firstErrNode] in *; try congruence.
  - now apply skip_read_error.
  - now exists e.
Qed.

Lemma unmarshalInterface_read_error (a : RestrictionAttr) (el : Elem) :
  firstErr el <> None -> is_err (unmarshalInterface a el).
Proof.
  intro H. rewrite unmarshalInterface_eq.
  destruct (lookupLocal "ref" _); [|now exists errNoRef].
  destruct (String.eqb _ ""); [now exists errNoRef|].
  destruct (firstErr el) as [e|]; [now exists e | congruence].
Qed.

Lemma unmarshalStruct_read_error {T : Type} (x : XMLNameInfo T)
  (attr : T -> Attr -> result T) (elem : T -> Elem -> result T) (el : Elem) :
  firstErr el <> None ->
  (forall c, In (NElem c) (children el) -> firstErr c <> None ->
             forall v, is_err (elem v c)) ->
  forall v, is_err (unmarshalStruct x attr elem v el).
Proof.
  destruct el as [st cs]. rewrite firstErr_eq. cbn [children].
  intros H Hc v. unfold unmarshalStruct.
  destruct (setXMLName x v st) as [v1|e]; [|now exists e]. cbn [bind].
  destruct (foldM attr (Start_Attr st) v1) as [v2|e]; [|now exists e]. cbn [bind].
  now apply child_read_error.
Qed.

Lemma within_read_error {T : Type} (tag : string) (elem : T -> Elem -> result T)
  (parent : Elem) :
  firstErr parent <> None ->
  (forall c, In (NElem c) (children parent) -> firstErr c <> None ->
             forall v, is_err (elem v c)) ->
  forall v, is_err (within tag elem v parent).
Proof.
  destruct parent as [st cs]. rewrite firstErr_eq. cbn [children].
  intros H Hc v. unfold within. cbn [children].
  apply child_read_error; [exact H|].
  intros c Hin Hne w. destruct (String.eqb (local c) tag).
  - now apply Hc.
  - now apply skip_read_error.
Qed.

Lemma stops_struct {T : Type} (x : XMLNameInfo T)
  (attr : T -> Attr -> result T) (elem : T -> Elem -> result T) :
  stops elem -> stops (unmarshalStruct x attr elem).
Proof.
  intros He el H. apply unmarshalStruct_read_error; [exact H|].
  intros c _ Hc. now apply He.
Qed.

Lemma stops_skip {T : Type} : stops (fun (v : T) el => skip v el).
Proof. intros el H v. now apply skip_read_error. Qed.

Ltac stops_cases :=
  repeat match goal with
         | |- is_err (if ?b then _ else _) => destruct b
         end.

Tactic Notation "stops_elem" reference(f) :=
  let c := fresh "c" in
  let Hc := fresh "Hc" in
  let v := fresh "v" in
  intros c Hc v; destruct v; unfold f; stops_cases;
  first [ apply skip_read_error; exact Hc
        | apply bind_is_err;
          first [ apply unmarshalString_read_error; exact Hc
                | apply unmarshalInterface_read_error; exact Hc
                | match goal with
                  | S : stops _ |- _ => now apply S
                  end ] ].

Lemma stops_Address : stops unmarshalAddress.
Proof. apply stops_struct. stops_elem Address_elem. Qed.

Lemma stops_Port : stops unmarshalPort.
Proof.
  pose proof stops_Address. apply stops_struct. stops_elem Port_elem.
Qed.

Lemma stops_Service : stops unmarshalService.
Proof.
  pose proof stops_Port. apply stops_struct. stops_elem Service_elem.
Qed.

Lemma stops_Union : stops unmarshalUnion.
Proof. apply stops_struct. stops_elem Union_elem. Qed.

Lemma stops_Enum : stops unmarshalEnum.
Proof. apply stops_struct. stops_elem Enum_elem. Qed.

Lemma stops_Restriction : stops unmarshalRestriction.
Proof.
  pose proof stops_Enum. apply stops_struct. stops_elem Restriction_elem.
Qed.

Lemma stops_SimpleType : stops unmarshalSimpleType.
Proof.
  pose proof stops_Union. pose proof stops_Restriction.
  apply stops_struct. stops_elem SimpleType_elem.
Qed.

Lemma stops_AnyElement : stops unmarshalAnyElement.
Proof. apply stops_struct. stops_elem AnyElement_elem. Qed.

Lemma stops_Import : stops unmarshalImport.
Proof. apply stops_struct. stops_elem Import_elem. Qed.

Lemma stops_ImportSchema : stops unmarshalImportSchema.
Proof. apply stops_struct. stops_elem ImportSchema_elem. Qed.

Lemma stops_Part : stops unmarshalPart.
Proof. apply stops_struct. stops_elem Part_elem. Qed.

Lemma stops_Message : stops unmarshalMessage.
Proof.
  pose proof stops_Part. apply stops_struct. stops_elem Message_elem.
Qed.

Lemma stops_IO : stops unmarshalIO.
Proof. apply stops_struct. stops_elem IO_elem. Qed.

Lemma stops_Operation : stops unmarshalOperation.
Proof.
  pose proof stops_IO. apply stops_struct. stops_elem Operation_elem.
Qed.

Lemma stops_PortType : stops unmarshalPortType.
Proof.
  pose proof stops_Operation. apply stops_struct. stops_elem PortType_elem.
Qed.

Lemma stops_SoapOperation : stops unmarshalSoapOperation.
Proof. apply stops_struct. stops_elem SoapOperation_elem. Qed.

Lemma stops_BindingIO : stops unmarshalBindingIO.
Proof. apply stops_struct. stops_elem BindingIO_elem. Qed.

Lemma stops_BindingOperation : stops unmarshalBindingOperation.
Proof.
  apply stops_struct. intros c Hc v. unfold BindingOperation_elem. stops_cases.
  - destruct v. apply bind_is_err. now apply stops_SoapOperation.
  - apply within_read_error; [exact Hc|].
    intros c' _ Hc' w. destruct w. apply bind_is_err. now apply stops_BindingIO.
  - apply within_read_error; [exact Hc|].
    intros c' _ Hc' w. destruct w. apply bind_is_err. now apply stops_BindingIO.
  - now apply skip_read_error.
Qed.

Lemma stops_Binding : stops unmarshalBinding.
Proof.
  pose proof stops_BindingOperation. apply stops_struct. stops_elem Binding_elem.
Qed.

Lemma onElem_In (P : Elem -> Prop) (cs : list Node) (c : Elem) :
  Forall (onElem P) cs -> In (NElem c) cs -> P c.
Proof. intros F Hin. rewrite Forall_forall in F. exact (F _ Hin). Qed.

(** The decoders of the schema type graph stop at read errors, at any
    depth. *)
Lemma schema_graph_stops (el : Elem) :
  schemaStops el /\ Forall (onElem schemaStops) (children el).
Proof.
  induction el as [st cs IH] using Elem_induction. cbn [children].
  assert (Hcs : Forall (onElem schemaStops) cs).
  { rewrite Forall_forall in *. intros [c| | |] Hin; cbn [onElem]; auto.
    exact (proj1 (IH _ Hin)). }
  split; [|exact Hcs].
  intro Herr.
  assert (Hall : forall (c : Elem) (T : Type) (f : T -> Elem -> result T),
             In (NElem c) cs -> firstErr c <> None ->
             (forall c', (forall w, is_err (unmarshalElement w c')) ->
                         forall v, is_err (f v c')) ->
             forall v, is_err (within "element" f v c)).
  { intros c T f Hin Hc Hf. apply within_read_error; [exact Hc|].
    intros c' Hin' Hc' v. apply Hf.
    pose proof (proj2 (onElem_In _ _ _ IH Hin)) as G.
    exact (proj2 (proj2 (proj2 (proj2 (onElem_In _ _ _ G Hin' Hc'))))). }
  repeat split.
  - intro v. rewrite unmarshalComplexType_eq.
    apply unmarshalStruct_read_error; [exact Herr|]. cbn [children].
    intros c Hin Hc w. pose proof (onElem_In _ _ _ Hcs Hin Hc) as (_ & CC & _ & SQ & _).
    unfold ComplexType_elem. stops_cases.
    + apply within_read_error; [exact Hc|].
      intros c' _ Hc' u. destruct u. apply bind_is_err.
      now apply unmarshalString_read_error.
    + apply (Hall c _ _ Hin Hc).
      intros c' Hc' u. destruct u. apply bind_is_err. apply Hc'.
    + destruct w. apply bind_is_err. apply CC.
    + destruct w. apply bind_is_err. apply SQ.
    + now apply skip_read_error.
  - intro v. rewrite unmarshalComplexContent_eq.
    apply unmarshalStruct_read_error; [exact Herr|]. cbn [children].
    intros c Hin Hc w. pose proof (onElem_In _ _ _ Hcs Hin Hc) as (_ & _ & EX & _).
    destruct w. unfold ComplexContent_elem. stops_cases.
    + apply bind_is_err. apply EX.
    + apply bind_is_err. now apply stops_Restriction.
    + now apply skip_read_error.
  - intro v. rewrite unmarshalExtension_eq.
    apply unmarshalStruct_read_error; [exact Herr|]. cbn [children].
    intros c Hin Hc w. pose proof (onElem_In _ _ _ Hcs Hin Hc) as (_ & _ & _ & SQ & _).
    destruct w. unfold Extension_elem. stops_cases.
    + apply bind_is_err. apply SQ.
    + now apply skip_read_error.
  - intro v. rewrite unmarshalSequence_eq.
    apply unmarshalStruct_read_error; [exact Herr|]. cbn [children].
    intros c Hin Hc w. pose proof (onElem_In _ _ _ Hcs Hin Hc) as (CT & _ & _ & _ & EL).
    destruct w. unfold Sequence_elem. stops_cases.
    + apply bind_is_err. apply CT.
    + apply bind_is_err. apply EL.
    + apply bind_is_err. now apply stops_AnyElement.
    + now apply skip_read_error.
  - intro v. rewrite unmarshalElement_eq.
    apply unmarshalStruct_read_error; [exact Herr|]. cbn [children].
    intros c Hin Hc w. pose proof (onElem_In _ _ _ Hcs Hin Hc) as (CT & _).
    destruct w. unfold Element_elem. stops_cases.
    + apply bind_is_err. apply CT.
    + now apply skip_read_error.
Qed.

Lemma stops_ComplexType : stops unmarshalComplexType.
Proof. intros el H. exact (proj1 (proj1 (schema_graph_stops el) H)). Qed.

Lemma stops_Element : stops unmarshalElement.
Proof.
  intros el H.
  exact (proj2 (proj2 (proj2 (proj2 (proj1 (schema_graph_stops el) H))))).
Qed.

Lemma stops_Schema : stops unmarshalSchema.
Proof.
  pose proof stops_ImportSchema. pose proof stops_SimpleType.
  pose proof stops_ComplexType. pose proof stops_Element.
  apply stops_struct. intros c Hc v. destruct v. unfold Schema_elem. stops_cases;
    first [ now apply skip_read_error
          | apply bind_is_err; auto ].
Qed.

(** X19.  Malformed input is never decoded in part: if a read error lies
    anywhere inside the root, however deep and whether in modelled or in
    skipped content, the decoder of [Definitions] returns an error. *)
Theorem read_error_aborts_decoding :
  forall (v : Definitions) (el : Elem) (e : error),
    firstErr el = Some e ->
    exists e', unmarshalDefinitions v el = Err e'.
Proof.
  intros v el e He. revert v. apply stops_struct; [|congruence].
  intros c Hc w. unfold Definitions_elem. stops_cases.
  - destruct w. apply bind_is_err. now apply stops_Service.
  - destruct w. apply bind_is_err. now apply stops_Import.
  - apply within_read_error; [exact Hc|].
    intros c' _ Hc' u. destruct u. apply bind_is_err. now apply stops_Schema.
  - destruct w. apply bind_is_err. now apply stops_Message.
  - destruct w. apply bind_is_err. now apply stops_PortType.
  - destruct w. apply bind_is_err. now apply stops_Binding.
  - now apply skip_read_error.
Qed.

End Structs.


(** ** The model at work *)

Example Split_prefixed : Split "tns:arrayType" ":" = ["tns"; "arrayType"].
Proof. reflexivity. Qed.

Example Split_trailing_colon : Split "tns:" ":" = ["tns"; ""].
Proof. reflexivity. Qed.

Example Split_no_colon : Split "arrayType" ":" = ["arrayType"].
Proof. reflexivity. Qed.

Example Split_empty : Split "" ":" = [""].
Proof. reflexivity. Qed.

Example Split_long_separator : Split "a--b-" "--" = ["a"; "b-"].
Proof. reflexivity. Qed.

Example Skip_nested :
  Skip (content attribute_arrayType ++ [Ok TOther]) = (None, [Ok TOther]).
Proof. reflexivity. Qed.

Example Skip_truncated :
  Skip [Ok (TStart (start attribute_no_value)); Ok (TCharData "x")] = (Some EOF, []).
Proof. reflexivity. Qed.

Example Unmarshal_no_ref : Unmarshal document_no_ref = Err errNoRef.
Proof. reflexivity. Qed.

Example Unmarshal_message :
  Unmarshal document_message = Ok decoded_message
  /\ map Message_Name (Definitions_Messages decoded_message) = ["m"]
  /\ Definitions_Name decoded_message = "svc".
Proof. repeat split. Qed.

Example Unmarshal_other_root :
  Unmarshal [NElem (elem "schema" [] [])]
  = Err (UnmarshalError "expected element type <definitions> but have <schema>").
Proof. reflexivity. Qed.

Example Unmarshal_truncated :
  Unmarshal [NElem (elem "definitions" []
                      [NElem (elem "types" [] [NErr (SyntaxError "unexpected EOF")])])]
  = Err (SyntaxError "unexpected EOF").
Proof. reflexivity. Qed.

Example Unmarshal_empty : Unmarshal [NOther; NCharData " "] = Err EOF.
Proof. reflexivity. Qed.

Example unmarshalElement_bad_minOccurs :
  unmarshalElement Element_zero (elem "element" [attr "minOccurs" "many"] [])
  = Err (NumError "ParseInt" "many").
Proof. reflexivity. Qed.

(** A second [attribute] child is decoded into the [RestrictionAttr] of the
    first; line 78 resets it, so nothing of the first remains. *)
Example unmarshalRestriction_two_attributes :
  unmarshalRestriction Restriction_zero
    (elem "restriction" []
          [NElem attribute_arrayType;
           NElem (elem "attribute" [attr "ref" "tns:other"] [])])
  = Ok (mkRestriction (mkName "" "restriction") "" []
          (Some (mkRestrictionAttr (mkName "" "attribute") "tns:other" "other" ""))).
Proof. reflexivity. Qed.

(** Two [sequence] children of one [complexType] are decoded into the same
    [Sequence]. *)
Example unmarshalComplexType_two_sequences :
  match unmarshalComplexType ComplexType_zero
          (elem "complexType" []
                [NElem sequence_a_any_b; NElem sequence_a_b_any]) with
  | Ok c =>
      option_map (fun s => map Element_Name (Sequence_Elements s))
                 (ComplexType_Sequence c)
      = Some ["a"; "b"; "a"; "b"]
  | Err _ => False
  end.
Proof. reflexivity. Qed.

(** ** The theorems at work on the example inputs *)

Lemma UnmarshalXML_resolves_reference_witness :
  distinctLocals (Start_Attr (start attribute_arrayType)) = true
  /\ carries (Start_Attr (start attribute_arrayType)) "ref" "tns:arrayType" = true
  /\ carries (Start_Attr (start attribute_arrayType)) "arrayType" "xsd:string[]"
     = true
  /\ firstErr attribute_arrayType = None
  /\ UnmarshalXML RestrictionAttr_zero (content attribute_arrayType ++ [])
                  (start attribute_arrayType)
     = (None,
        mkRestrictionAttr (mkName "" "attribute") "tns:arrayType" "arrayType"
                          "xsd:string[]",
        []).
Proof.
  split; [reflexivity|]. split; [reflexivity|]. split; [reflexivity|].
  split; [reflexivity|].
  apply (proj2 UnmarshalXML_resolves_reference RestrictionAttr_zero
               attribute_arrayType []); reflexivity.
Defined.

Lemma UnmarshalXML_tolerates_missing_value_witness :
  distinctLocals (Start_Attr (start attribute_no_value)) = true
  /\ carries (Start_Attr (start attribute_no_value)) "ref" "tns:arrayType" = true
  /\ lacks (Start_Attr (start attribute_no_value)) "arrayType" = true
  /\ firstErr attribute_no_value = None
  /\ UnmarshalXML RestrictionAttr_zero (content attribute_no_value ++ [])
                  (start attribute_no_value)
     = (None,
        mkRestrictionAttr (mkName "" "attribute") "tns:arrayType" "arrayType" "",
        []).
Proof.
  split; [reflexivity|]. split; [reflexivity|]. split; [reflexivity|].
  split; [reflexivity|].
  apply (proj2 UnmarshalXML_tolerates_missing_value RestrictionAttr_zero
               attribute_no_value []); reflexivity.
Defined.

Lemma UnmarshalXML_consumes_subtree_witness :
  lookupLocal "ref" (Start_Attr (start attribute_arrayType)) = Some "tns:arrayType"
  /\ finalSegment "tns:arrayType" <> ""
  /\ firstErr attribute_arrayType = None
  /\ UnmarshalXML RestrictionAttr_zero (content attribute_arrayType ++ [Ok TOther])
                  (start attribute_arrayType)
     = (None,
        mkRestrictionAttr (mkName "" "attribute") "tns:arrayType" "arrayType"
                          "xsd:string[]",
        [Ok TOther]).
Proof.
  split; [reflexivity|]. split; [simpl; discriminate|]. split; [reflexivity|].
  apply (UnmarshalXML_consumes_subtree RestrictionAttr_zero attribute_arrayType
           [Ok TOther] "tns:arrayType");
    [reflexivity | simpl; discriminate | reflexivity].
Defined.

Lemma UnmarshalXML_empty_key_fails_witness :
  lookupLocal "ref" (Start_Attr (start attribute_empty_key)) = Some "tns:"
  /\ finalSegment "tns:" = ""
  /\ UnmarshalXML RestrictionAttr_zero (content attribute_empty_key)
                  (start attribute_empty_key)
     = (Some errNoRef, mkRestrictionAttr (mkName "" "attribute") "tns:" "" "",
        content attribute_empty_key).
Proof.
  split; [reflexivity|]. split; [reflexivity|].
  apply (UnmarshalXML_empty_key_fails RestrictionAttr_zero
           (content attribute_empty_key) (start attribute_empty_key) "tns:");
    reflexivity.
Defined.

Lemma UnmarshalXML_success_invariant_witness :
  UnmarshalXML RestrictionAttr_zero (content attribute_arrayType)
               (start attribute_arrayType)
  = (None,
     mkRestrictionAttr (mkName "" "attribute") "tns:arrayType" "arrayType"
                       "xsd:string[]",
     [])
  /\ "arrayType" <> ""
  /\ lookupLocal "ref" (Start_Attr (start attribute_arrayType)) = Some "tns:arrayType".
Proof.
  split; [reflexivity|].
  pose proof (UnmarshalXML_success_invariant RestrictionAttr_zero
                (mkRestrictionAttr (mkName "" "attribute") "tns:arrayType"
                                   "arrayType" "xsd:string[]")
                (content attribute_arrayType) [] (start attribute_arrayType)
                eq_refl) as (Hkey & _ & _ & _ & Href).
  split; [exact Hkey | exact Href].
Defined.

Lemma Element_Max_verbatim_witness :
  (unmarshalElement Element_zero element_unbounded = Ok decoded_unbounded
   /\ carries (Start_Attr (start element_unbounded)) "maxOccurs" "unbounded" = true
   /\ distinctLocals (Start_Attr (start element_unbounded)) = true
   /\ Element_Max decoded_unbounded = "unbounded")
  /\ (unmarshalElement Element_zero element_five = Ok decoded_five
      /\ carries (Start_Attr (start element_five)) "maxOccurs" "5" = true
      /\ distinctLocals (Start_Attr (start element_five)) = true
      /\ Element_Max decoded_five = "5").
Proof.
  split; (split; [reflexivity|]); (split; [reflexivity|]); (split; [reflexivity|]).
  - apply (proj1 (proj2 (proj2 (@Element_Max_verbatim ascii_strconv
                                  element_unbounded decoded_unbounded eq_refl))));
      reflexivity.
  - apply (proj2 (proj2 (proj2 (@Element_Max_verbatim ascii_strconv
                                  element_five decoded_five eq_refl))));
      reflexivity.
Defined.

Lemma Sequence_order_within_kinds_witness :
  unmarshalSequence Sequence_zero sequence_a_any_b = Ok decoded_a_any_b
  /\ map Element_Name (Sequence_Elements decoded_a_any_b) = ["a"; "b"]
  /\ Forall2 (fun c x => unmarshalElement Element_zero c = Ok x)
             (elemsNamed "element" (children sequence_a_any_b))
             (Sequence_Elements decoded_a_any_b)
  /\ Forall2 (fun c x => unmarshalAnyElement AnyElement_zero c = Ok x)
             (elemsNamed "any" (children sequence_a_any_b))
             (Sequence_Any decoded_a_any_b).
Proof.
  split; [reflexivity|]. split; [reflexivity|].
  exact (proj2 (@Sequence_order_within_kinds ascii_strconv sequence_a_any_b decoded_a_any_b
                  eq_refl)).
Defined.

Lemma ComplexType_skips_unrecognized_witness :
  ComplexType_claims (local anyAttribute) = false
  /\ firstErr anyAttribute = None
  /\ unmarshalComplexType ComplexType_zero
       (mkElem (mkStart (mkName "" "complexType") [attr "name" "T"])
               ([NElem sequence_a_any_b] ++ NElem anyAttribute :: []))
     = unmarshalComplexType ComplexType_zero
         (mkElem (mkStart (mkName "" "complexType") [attr "name" "T"])
                 ([NElem sequence_a_any_b] ++ [])).
Proof.
  split; [reflexivity|]. split; [reflexivity|].
  apply (@ComplexType_skips_unrecognized ascii_strconv ComplexType_zero
           (mkStart (mkName "" "complexType") [attr "name" "T"])
           [NElem sequence_a_any_b] [] anyAttribute); reflexivity.
Defined.

Lemma document_no_ref_handsOver :
  handsOver TDefinitions definitions_no_ref attribute_no_ref.
Proof.
  apply (hands_field TDefinitions TSchema ["types"; "schema"] _ schema_no_ref);
    [simpl; auto | | ].
  - apply (follows_step "types" ["schema"] _ types_no_ref); [simpl; auto | reflexivity|].
    apply follows_last; [simpl; auto | reflexivity].
  - apply (hands_field TSchema TSimpleType ["simpleType"] _ simpleType_no_ref);
      [simpl; auto | apply follows_last; [simpl; auto | reflexivity] | ].
    apply (hands_field TSimpleType TRestriction ["restriction"] _ restriction_no_ref);
      [simpl; auto | apply follows_last; [simpl; auto | reflexivity] | ].
    apply hands_attribute. apply follows_last; [simpl; auto | reflexivity].
Defined.

Lemma missing_ref_aborts_decoding_witness :
  lacks (Start_Attr (start attribute_no_ref)) "ref" = true
  /\ firstElement document_no_ref = Some definitions_no_ref
  /\ UnmarshalXML RestrictionAttr_zero (content attribute_no_ref)
                  (start attribute_no_ref)
     = (Some errNoRef, mkRestrictionAttr (mkName "" "attribute") "" "" "",
        content attribute_no_ref)
  /\ exists e, Unmarshal document_no_ref = Err e.
Proof.
  split; [reflexivity|]. split; [reflexivity|]. split.
  - apply (proj1 (@missing_ref_aborts_decoding ascii_strconv) RestrictionAttr_zero
                 (content attribute_no_ref) (start attribute_no_ref)).
    reflexivity.
  - apply (proj2 (proj2 (@missing_ref_aborts_decoding ascii_strconv))
                 document_no_ref definitions_no_ref attribute_no_ref);
      [reflexivity | exact document_no_ref_handsOver | reflexivity].
Defined.

(** ** Where the code departs from the claims *)

(** C1 as stated fails: the two sources [element a, any, element b] and
    [element a, element b, any] decode to the same [Sequence], so no list
    computed from a decoded [Sequence] reproduces the order of the children
    across kinds. *)
Lemma Sequence_order_across_kinds_lost :
  unmarshalSequence Sequence_zero sequence_a_any_b
  = unmarshalSequence Sequence_zero sequence_a_b_any
  /\ unmarshalSequence Sequence_zero sequence_a_any_b = Ok decoded_a_any_b
  /\ sourceOrder (children sequence_a_any_b)
     = [NamedElement "a"; Wildcard; NamedElement "b"]
  /\ sourceOrder (children sequence_a_b_any)
     = [NamedElement "a"; NamedElement "b"; Wildcard]
  /\ ~ (exists combined : Sequence -> list ChildKind,
          forall (el : Elem) (s : Sequence),
            unmarshalSequence Sequence_zero el = Ok s ->
            combined s = sourceOrder (children el)).
Proof.
  split; [reflexivity|]. split; [reflexivity|].
  split; [reflexivity|]. split; [reflexivity|].
  intros [combined H].
  pose proof (H sequence_a_any_b decoded_a_any_b eq_refl) as H1.
  pose proof (H sequence_a_b_any decoded_a_any_b eq_refl) as H2.
  rewrite H1 in H2. discriminate H2.
Qed.

(** C3 as stated fails in its "only": with [ref="tns:"] the attribute [ref]
    is present, and [UnmarshalXML] returns the error of line 94 all the
    same. *)
Lemma no_ref_error_with_ref_present :
  lookupLocal "ref" (Start_Attr (start attribute_empty_key)) = Some "tns:"
  /\ fst (fst (UnmarshalXML RestrictionAttr_zero (content attribute_empty_key)
                            (start attribute_empty_key)))
     = Some errNoRef
  /\ ~ (forall (a : RestrictionAttr) (d : Decoder) (st : StartElement),
          fst (fst (UnmarshalXML a d st)) = Some errNoRef ->
          lookupLocal "ref" (Start_Attr st) = None).
Proof.
  split; [reflexivity|]. split; [reflexivity|].
  intro H.
  specialize (H RestrictionAttr_zero (content attribute_empty_key)
                (start attribute_empty_key) eq_refl).
  discriminate H.
Qed.

(** ** The further properties at work on example inputs *)

Lemma UnmarshalXML_ignores_attribute_namespaces_witness :
  Start_Name (start attribute_arrayType) = Start_Name attribute_arrayType_qualified
  /\ map localValue (Start_Attr (start attribute_arrayType))
     = map localValue (Start_Attr attribute_arrayType_qualified)
  /\ UnmarshalXML RestrictionAttr_zero (content attribute_arrayType)
                  (start attribute_arrayType)
     = UnmarshalXML RestrictionAttr_zero (content attribute_arrayType)
                    attribute_arrayType_qualified.
Proof.
  split; [reflexivity|]. split; [reflexivity|].
  apply (UnmarshalXML_ignores_attribute_namespaces RestrictionAttr_zero
           (content attribute_arrayType) (start attribute_arrayType)
           attribute_arrayType_qualified); reflexivity.
Defined.

Lemma UnmarshalXML_returns_read_error_witness :
  lookupLocal "ref" (Start_Attr (start attribute_truncated)) = Some "tns:arrayType"
  /\ finalSegment "tns:arrayType" <> ""
  /\ firstErr attribute_truncated = Some (SyntaxError "unexpected EOF")
  /\ unmarshalInterface RestrictionAttr_zero attribute_truncated
     = Err (SyntaxError "unexpected EOF").
Proof.
  split; [reflexivity|]. split; [simpl; discriminate|]. split; [reflexivity|].
  apply (UnmarshalXML_returns_read_error RestrictionAttr_zero attribute_truncated []
           "tns:arrayType" (SyntaxError "unexpected EOF"));
    [reflexivity | simpl; discriminate | reflexivity].
Defined.

Lemma UnmarshalXML_key_is_ref_iff_unprefixed_witness :
  UnmarshalXML RestrictionAttr_zero (content attribute_unprefixed)
               (start attribute_unprefixed)
  = (None,
     mkRestrictionAttr (mkName "" "attribute") "arrayType" "arrayType" "xsd:int[]",
     [])
  /\ ~ occurs ":"%char "arrayType".
Proof.
  split; [reflexivity|].
  exact (proj1 (UnmarshalXML_key_is_ref_iff_unprefixed RestrictionAttr_zero
                  (mkRestrictionAttr (mkName "" "attribute") "arrayType"
                                     "arrayType" "xsd:int[]")
                  (content attribute_unprefixed) [] (start attribute_unprefixed)
                  eq_refl)
               eq_refl).
Defined.

Lemma Restriction_Enum_in_order_witness :
  unmarshalRestriction Restriction_zero restriction_colors = Ok decoded_colors
  /\ map Enum_Value (Restriction_Enum decoded_colors) = ["red"; "green"].
Proof.
  split; [reflexivity|].
  exact (Restriction_Enum_in_order restriction_colors decoded_colors eq_refl).
Defined.

Lemma Restriction_keeps_last_attribute_witness :
  unmarshalRestriction Restriction_zero restriction_two_attributes
  = Ok decoded_two_attributes
  /\ exists a,
      Restriction_Attribute decoded_two_attributes = Some a
      /\ unmarshalInterface RestrictionAttr_zero attribute_other = Ok a
      /\ RestrictionAttr_Key a <> ""
      /\ lookupLocal "ref" (Start_Attr (start attribute_other))
         = Some (RestrictionAttr_Ref a)
      /\ RestrictionAttr_Value a
         = orEmpty (lookupLocal (RestrictionAttr_Key a)
                                (Start_Attr (start attribute_other))).
Proof.
  split; [reflexivity|].
  exact (Restriction_keeps_last_attribute Restriction_zero
           restriction_two_attributes decoded_two_attributes eq_refl).
Defined.

Lemma Message_Parts_in_order_witness :
  unmarshalMessage Message_zero message_two_parts = Ok decoded_two_parts
  /\ Message_Name decoded_two_parts = "req"
  /\ map Part_Name (Message_Parts decoded_two_parts) = ["a"; "b"].
Proof.
  split; [reflexivity|].
  split; [|reflexivity].
  exact (proj1 (Message_Parts_in_order message_two_parts decoded_two_parts eq_refl)).
Defined.

Lemma Schema_order_within_kinds_witness :
  unmarshalSchema Schema_zero schema_mixed = Ok decoded_schema_mixed
  /\ map Element_Name (Schema_Elements decoded_schema_mixed) = ["e1"; "e2"]
  /\ exists ims sts cts els,
      Schema_Imports decoded_schema_mixed = Schema_Imports Schema_zero ++ ims
      /\ Schema_SimpleTypes decoded_schema_mixed
         = Schema_SimpleTypes Schema_zero ++ sts
      /\ Schema_ComplexTypes decoded_schema_mixed
         = Schema_ComplexTypes Schema_zero ++ cts
      /\ Schema_Elements decoded_schema_mixed = Schema_Elements Schema_zero ++ els
      /\ Forall2 (fun c x => unmarshalImportSchema ImportSchema_zero c = Ok x)
                 (elemsNamed "import" (children schema_mixed)) ims
      /\ Forall2 (fun c x => unmarshalSimpleType SimpleType_zero c = Ok x)
                 (elemsNamed "simpleType" (children schema_mixed)) sts
      /\ Forall2 (fun c x => unmarshalComplexType ComplexType_zero c = Ok x)
                 (elemsNamed "complexType" (children schema_mixed)) cts
      /\ Forall2 (fun c x => unmarshalElement Element_zero c = Ok x)
                 (elemsNamed "element" (children schema_mixed)) els.
Proof.
  split; [reflexivity|]. split; [reflexivity|].
  exact (@Schema_order_within_kinds ascii_strconv Schema_zero schema_mixed
           decoded_schema_mixed eq_refl).
Defined.

Lemma ComplexType_merges_sequences_witness :
  unmarshalComplexType ComplexType_zero complexType_two_sequences
  = Ok decoded_two_sequences
  /\ exists s,
      foldM unmarshalSequence [sequence_a_any_b; sequence_a_b_any] Sequence_zero
      = Ok s
      /\ ComplexType_Sequence decoded_two_sequences = Some s.
Proof.
  split; [reflexivity|].
  exact (@ComplexType_merges_sequences ascii_strconv complexType_two_sequences
           decoded_two_sequences eq_refl).
Defined.

Lemma Sequence_accumulates_witness :
  unmarshalSequence decoded_a_any_b sequence_a_b_any = Ok decoded_a_any_b_twice
  /\ map Element_Name (Sequence_Elements decoded_a_any_b_twice)
     = ["a"; "b"; "a"; "b"]
  /\ exists cts els anys,
      Sequence_ComplexTypes decoded_a_any_b_twice
      = Sequence_ComplexTypes decoded_a_any_b ++ cts
      /\ Sequence_Elements decoded_a_any_b_twice
         = Sequence_Elements decoded_a_any_b ++ els
      /\ Sequence_Any decoded_a_any_b_twice = Sequence_Any decoded_a_any_b ++ anys
      /\ Forall2 (fun c x => unmarshalComplexType ComplexType_zero c = Ok x)
                 (elemsNamed "complexType" (children sequence_a_b_any)) cts
      /\ Forall2 (fun c x => unmarshalElement Element_zero c = Ok x)
                 (elemsNamed "element" (children sequence_a_b_any)) els
      /\ Forall2 (fun c x => unmarshalAnyElement AnyElement_zero c = Ok x)
                 (elemsNamed "any" (children sequence_a_b_any)) anys.
Proof.
  split; [reflexivity|]. split; [reflexivity|].
  exact (@Sequence_accumulates ascii_strconv decoded_a_any_b sequence_a_b_any
           decoded_a_any_b_twice eq_refl).
Defined.

Lemma Definitions_merges_repeated_children_witness :
  unmarshalDefinitions Definitions_zero definitions_full = Ok decoded_full
  /\ foldM unmarshalPortType [portType_first; portType_second] PortType_zero
     = Ok (Definitions_PortType decoded_full)
  /\ map Operation_Name (PortType_Operations (Definitions_PortType decoded_full))
     = ["f"; "g"].
Proof.
  split; [reflexivity|]. split; [|reflexivity].
  exact (proj1 (@Definitions_merges_repeated_children ascii_strconv
                  definitions_full decoded_full eq_refl)).
Defined.

Lemma PortType_accumulates_witness :
  unmarshalPortType decoded_portType_first portType_second = Ok decoded_portType_both
  /\ PortType_Name decoded_portType_both = "P1"
  /\ map Operation_Name (PortType_Operations decoded_portType_both) = ["f"; "g"].
Proof.
  split; [reflexivity|]. split; [|reflexivity].
  exact (proj1 (PortType_accumulates decoded_portType_first portType_second
                  decoded_portType_both eq_refl)).
Defined.

Lemma Definitions_root_fields_witness :
  unmarshalDefinitions Definitions_zero definitions_full = Ok decoded_full
  /\ Definitions_Name decoded_full = "svc"
  /\ Definitions_TargetNamespace decoded_full = "urn:svc"
  /\ Definitions_SOAPEnv decoded_full = "http://schemas.xmlsoap.org/soap/envelope/"
  /\ Definitions_SOAPEnc decoded_full = "".
Proof.
  split; [reflexivity|].
  pose proof (@Definitions_root_fields ascii_strconv definitions_full decoded_full
                eq_refl) as (N & T & V & C & _).
  split; [exact N|]. split; [exact T|]. split; [exact V | exact C].
Defined.

Lemma Element_ignores_unknown_attribute_witness :
  Element_binds (Local (Attr_Name (attr "form" "qualified"))) = false
  /\ unmarshalElement Element_zero
       (mkElem (mkStart (mkName "" "element")
                        ([attr "name" "a"] ++ attr "form" "qualified" :: []))
               [])
     = unmarshalElement Element_zero
         (mkElem (mkStart (mkName "" "element") ([attr "name" "a"] ++ [])) []).
Proof.
  split; [reflexivity|].
  apply (@Element_ignores_unknown_attribute ascii_strconv Element_zero
           (mkName "" "element") [attr "name" "a"] [] (attr "form" "qualified") []).
  reflexivity.
Defined.

Lemma Element_unparsable_attribute_fails_witness :
  In (attr "minOccurs" "many")
     (Start_Attr (start (elem "element" [attr "minOccurs" "many"] [])))
  /\ exists e',
      unmarshalElement Element_zero (elem "element" [attr "minOccurs" "many"] [])
      = Err e'.
Proof.
  split; [simpl; auto|].
  apply (@Element_unparsable_attribute_fails ascii_strconv Element_zero
           (elem "element" [attr "minOccurs" "many"] [])
           (attr "minOccurs" "many") (NumError "ParseInt" "many"));
    [simpl; auto | simpl; discriminate | left; split; reflexivity].
Defined.

Lemma Definitions_root_name_witness :
  local schema_mixed <> "definitions"
  /\ unmarshalDefinitions Definitions_zero schema_mixed
     = Err (UnmarshalError "expected element type <definitions> but have <schema>")
  /\ unmarshalDefinitions Definitions_zero definitions_full = Ok decoded_full
  /\ Definitions_XMLName decoded_full
     = mkName "http://schemas.xmlsoap.org/wsdl/" "definitions".
Proof.
  split; [simpl; discriminate|]. split.
  - apply (proj1 (@Definitions_root_name ascii_strconv Definitions_zero schema_mixed)).
    simpl. discriminate.
  - split; [reflexivity|].
    exact (proj2 (proj2 (@Definitions_root_name ascii_strconv Definitions_zero
                           definitions_full) decoded_full eq_refl)).
Defined.

Lemma Restriction_skips_other_facets_witness :
  Restriction_claims (local pattern_facet) = false
  /\ firstErr pattern_facet = None
  /\ unmarshalRestriction Restriction_zero
       (mkElem (start restriction_colors)
               ([NElem (elem "enumeration" [attr "value" "red"] [])]
                ++ NElem pattern_facet
                   :: [NElem (elem "enumeration" [attr "value" "green"] [])]))
     = unmarshalRestriction Restriction_zero
         (mkElem (start restriction_colors)
                 ([NElem (elem "enumeration" [attr "value" "red"] [])]
                  ++ [NElem (elem "enumeration" [attr "value" "green"] [])])).
Proof.
  split; [reflexivity|]. split; [reflexivity|].
  apply (Restriction_skips_other_facets Restriction_zero (start restriction_colors)
           [NElem (elem "enumeration" [attr "value" "red"] [])]
           [NElem (elem "enumeration" [attr "value" "green"] [])] pattern_facet);
    reflexivity.
Defined.

Lemma Extension_skips_all_but_sequence_witness :
  local attribute_no_ref <> "sequence"
  /\ firstErr attribute_no_ref = None
  /\ unmarshalExtension Extension_zero
       (mkElem extension_start ([] ++ NElem attribute_no_ref :: []))
     = unmarshalExtension Extension_zero (mkElem extension_start ([] ++ [])).
Proof.
  split; [simpl; discriminate|]. split; [reflexivity|].
  apply (@Extension_skips_all_but_sequence ascii_strconv Extension_zero
           extension_start [] [] attribute_no_ref);
    [simpl; discriminate | reflexivity].
Defined.

Lemma Definitions_skips_unrecognized_witness :
  Definitions_claims (local root_documentation) = false
  /\ firstErr root_documentation = None
  /\ unmarshalDefinitions Definitions_zero
       (mkElem (start definitions_full)
               ([] ++ NElem root_documentation :: children definitions_full))
     = unmarshalDefinitions Definitions_zero
         (mkElem (start definitions_full) ([] ++ children definitions_full)).
Proof.
  split; [reflexivity|]. split; [reflexivity|].
  apply (@Definitions_skips_unrecognized ascii_strconv Definitions_zero
           (start definitions_full) [] (children definitions_full)
           root_documentation); reflexivity.
Defined.

Lemma read_error_aborts_decoding_witness :
  firstErr definitions_truncated = Some (SyntaxError "unexpected EOF")
  /\ exists e', unmarshalDefinitions Definitions_zero definitions_truncated = Err e'.
Proof.
  split; [reflexivity|].
  apply (@read_error_aborts_decoding ascii_strconv Definitions_zero
           definitions_truncated (SyntaxError "unexpected EOF")).
  reflexivity.
Defined.

Lemma Definitions_merges_schemas_witness :
  unmarshalDefinitions Definitions_zero definitions_full = Ok decoded_full
  /\ foldM unmarshalSchema [schema_mixed; schema_second] Schema_zero
     = Ok (Definitions_Schema decoded_full)
  /\ map ComplexType_Name (Schema_ComplexTypes (Definitions_Schema decoded_full))
     = ["c1"; "c2"].
Proof.
  split; [reflexivity|]. split; [|reflexivity].
  exact (@Definitions_merges_schemas ascii_strconv definitions_full decoded_full
           eq_refl).
Defined.

Lemma Service_fields_witness :
  unmarshalService Service_zero service_documented = Ok decoded_service
  /\ Service_Doc decoded_service = "The  service"
  /\ map Port_Name (Service_Ports decoded_service) = ["p"].
Proof.
  split; [reflexivity|]. split; [|reflexivity].
  exact (proj1 (Service_fields service_documented decoded_service eq_refl)).
Defined.

Lemma Operation_input_output_witness :
  unmarshalOperation Operation_zero operation_g = Ok decoded_operation_g
  /\ elemsNamed "input" (children operation_g) = [input_g]
  /\ elemsNamed "output" (children operation_g) = [output_g]
  /\ exists i u,
      Operation_Input decoded_operation_g = Some i
      /\ Operation_Output decoded_operation_g = Some u
      /\ IO_XMLName i = Start_Name (start input_g)
      /\ IO_Message i = orEmpty (lookupLast "message" (Start_Attr (start input_g)))
      /\ IO_XMLName u = Start_Name (start output_g)
      /\ IO_Message u = orEmpty (lookupLast "message" (Start_Attr (start output_g))).
Proof.
  split; [reflexivity|]. split; [reflexivity|]. split; [reflexivity|].
  exact (Operation_input_output operation_g input_g output_g decoded_operation_g
           eq_refl eq_refl eq_refl).
Defined.
